(** * news-snippet-gen: the snippet-card pipeline of [app/api/generate/route.ts]

    A shallow embedding of the request handler [POST] (the retry version with
    the font-outline text renderer, and the earlier single-fetch version
    where the two differ) and of [renderTextBox], with the properties of the
    line-wrap engine, the field resolver, the text normaliser, the layout
    calculator and the fetch shim. *)

From Stdlib Require Import Ascii String DecimalString.
From Stdlib Require Import NArith ZArith QArith Qround Lia Lqa Bool List.
Import ListNotations.
Close Scope Q_scope.

Set Implicit Arguments.

(** ** JavaScript strings

    A JS string is a sequence of UTF-16 code units; [length], [substring],
    [split] and the regular expressions of the handler (none has the [u]
    flag) all work on code units. *)

Module JS.

Definition char := N.
Definition str := list char.

(** A string literal of the source, for literals made of ASCII characters. *)
Definition lit (s : string) : str := map N_of_ascii (list_ascii_of_string s).

Definition sp : char := 32%N.
Definition comma : char := 44%N.
Definition dash : char := 45%N.
Definition slash : char := 47%N.

Definition str_eqb (a b : str) : bool :=
  if list_eq_dec N.eq_dec a b then true else false.

(** Truthiness of a string: only the empty string is falsy. *)
Definition truthy (s : str) : bool :=
  match s with [] => false | _ :: _ => true end.

(** [a || b] on strings. *)
Definition or_else (a b : str) : str := if truthy a then a else b.

(** [s.split(sep)] for a one-character separator. *)
Fixpoint split_on (sep : char) (s : str) : list str :=
  match s with
  | [] => [[]]
  | c :: s' =>
      if N.eqb c sep then [] :: split_on sep s'
      else match split_on sep s' with
           | w :: ws => (c :: w) :: ws
           | [] => [[c]]
           end
  end.

(** [parts.join(sep)]. *)
Fixpoint join (sep : str) (parts : list str) : str :=
  match parts with
  | [] => []
  | [p] => p
  | p :: ps => p ++ sep ++ join sep ps
  end.

(** [s.substring(0, n)]. *)
Definition substring0 (n : nat) (s : str) : str := firstn n s.

Fixpoint starts_with (p s : str) : bool :=
  match p, s with
  | [], _ => true
  | _ :: _, [] => false
  | a :: p', b :: s' => N.eqb a b && starts_with p' s'
  end.

(** [s.includes(p)]. *)
Fixpoint includes (p s : str) : bool :=
  starts_with p s ||
  match s with
  | [] => false
  | _ :: s' => includes p s'
  end.

(** [s.replace(p, r)] for a string pattern: the first occurrence only. *)
Fixpoint replace_first (p r s : str) : str :=
  if starts_with p s then r ++ skipn (length p) s
  else match s with
       | [] => []
       | c :: s' => c :: replace_first p r s'
       end.

(** White space in the sense of [\s] and [trim]: WhiteSpace and
    LineTerminator code units. *)
Definition is_space (c : char) : bool :=
  ((9 <=? c) && (c <=? 13) || (c =? 32) || (c =? 160) || (c =? 5760)
   || (8192 <=? c) && (c <=? 8202) || (c =? 8232) || (c =? 8233)
   || (c =? 8239) || (c =? 8287) || (c =? 12288) || (c =? 65279))%N.

(** Line terminators, which [.] does not match. *)
Definition is_line_terminator (c : char) : bool :=
  ((c =? 10) || (c =? 13) || (c =? 8232) || (c =? 8233))%N.

(** [\w]. *)
Definition is_word (c : char) : bool :=
  ((48 <=? c) && (c <=? 57) || (65 <=? c) && (c <=? 90) || (c =? 95)
   || (97 <=? c) && (c <=? 122))%N.

Definition is_lower (c : char) : bool := ((97 <=? c) && (c <=? 122))%N.
Definition is_upper (c : char) : bool := ((65 <=? c) && (c <=? 90))%N.

(** [c.toUpperCase()] and [c.toLowerCase()] on the ASCII range. *)
Definition upper_ascii (c : char) : char := if is_lower c then (c - 32)%N else c.
Definition lower_ascii (c : char) : char := if is_upper c then (c + 32)%N else c.

Fixpoint drop_while (f : char -> bool) (s : str) : str :=
  match s with
  | [] => []
  | c :: s' => if f c then drop_while f s' else s
  end.

Fixpoint take_while (f : char -> bool) (s : str) : str :=
  match s with
  | [] => []
  | c :: s' => if f c then c :: take_while f s' else []
  end.

Definition trim_start (s : str) : str := drop_while is_space s.
Definition trim_end (s : str) : str := rev (drop_while is_space (rev s)).

(** [s.trim()]. *)
Definition trim (s : str) : str := trim_end (trim_start s).

End JS.

Import JS.

(** ** Text normaliser: title truncation (route.ts, line 205) *)

Definition cleanTitle (title : str) : str :=
  if 150 <? length title then substring0 150 title ++ lit "..." else title.

(** ** Line-wrap engine (route.ts, lines 212-220 and 238-246) *)

(** [lines[lines.length - 1] = v]. *)
Definition set_last (lines : list str) (v : str) : list str :=
  removelast lines ++ [v].

(** The reducer callback: [currentLine] is the last line; when it is truthy
    and [currentLine + ' ' + word] is shorter than the budget the word is
    appended to it, otherwise the word is pushed as a new line. *)
Definition wrap_step (budget : nat) (lines : list str) (word : str) : list str :=
  let currentLine := last lines [] in
  if truthy currentLine && (length (currentLine ++ [sp] ++ word) <? budget)
  then set_last lines (currentLine ++ [sp] ++ word)
  else lines ++ [word].

(** [s.split(' ').reduce(callback, [''])]. *)
Definition wrap (budget : nat) (s : str) : list str :=
  fold_left (wrap_step budget) (split_on sp s) [[]].

(** Font tier of the title (lines 223-235). *)
Record tier := mkTier { titleFontSize : Z; lineHeight : Z; maxCharsPerLine : nat }.

Definition title_tier (cleanTitle : str) : tier :=
  if 80 <? length cleanTitle then mkTier 36 44 35
  else if 50 <? length cleanTitle then mkTier 42 50 30
  else mkTier 48 58 25.

Definition maxAuthorCharsPerLine : nat := 60.

Definition titleLines (title : str) : list str :=
  let t := cleanTitle title in wrap (maxCharsPerLine (title_tier t)) t.

(** ** Text normaliser: author clean-up (route.ts, lines 194-202) *)

Fixpoint starts_with_ci (p s : str) : bool :=
  match p, s with
  | [], _ => true
  | _ :: _, [] => false
  | a :: p', b :: s' => N.eqb (upper_ascii a) (upper_ascii b) && starts_with_ci p' s'
  end.

(** [s.replace(/^p\s+/i, '')] for an ASCII literal [p]. *)
Definition strip_prefix_ci (p s : str) : str :=
  if starts_with_ci p s then
    match skipn (length p) s with
    | c :: rest => if is_space c then drop_while is_space rest else s
    | [] => s
    end
  else s.

(** [s.replace(/\s+/g, ' ')]: each maximal run of white space becomes one
    space; [in_run] tells that the run has already been replaced. *)
Fixpoint collapse_from (in_run : bool) (s : str) : str :=
  match s with
  | [] => []
  | c :: s' =>
      if is_space c
      then (if in_run then collapse_from true s' else sp :: collapse_from true s')
      else c :: collapse_from false s'
  end.

Definition collapse_spaces (s : str) : str := collapse_from false s.

(** The separators of [/[|•–—]/]: U+007C, U+2022, U+2013, U+2014. *)
Definition is_author_separator (c : char) : bool :=
  ((c =? 124) || (c =? 8226) || (c =? 8211) || (c =? 8212))%N.

Definition cleanAuthorName (name : str) : str :=
  if negb (truthy name) then []
  else trim (take_while (fun c => negb (is_author_separator c))
               (collapse_spaces
                  (strip_prefix_ci (lit "author:") (strip_prefix_ci (lit "by") name)))).

(** ** Layout calculator (route.ts, lines 249-274) *)

(** [Math.round]: the nearest integer, halves rounded up. JS numbers are
    doubles; the quantities of the layout are integers plus [0.85 * fontSize]
    for a font size of 36, 42 or 48, whose fractional part (.6, .7, .8) is
    far from one half, so the exact rational computation below and the
    double computation round to the same integer. *)
Definition Math_round (x : Q) : Z := Qfloor (x + (1 # 2))%Q.

Definition topPadding : Q := 20.
Definition separatorSpacing : Q := 12.
Definition separatorHeight : Q := 2.
Definition metadataSpacing : Q := 15.
Definition metadataLineHeight : Q := 18.
Definition bottomPadding : Q := 20.
Definition width : Z := 800.
Definition totalHeight : Z := 1000.

Definition ofnat (n : nat) : Q := inject_Z (Z.of_nat n).

Definition titleStartY (t : tier) : Q :=
  (topPadding + inject_Z (titleFontSize t) * (85 # 100))%Q.

Definition titleBlockHeight (t : tier) (titleLinesLength : nat) : Q :=
  ((ofnat titleLinesLength - 1) * inject_Z (lineHeight t)
   + inject_Z (titleFontSize t) * (85 # 100))%Q.

(** Lines 259-269: the block height is accumulated, then reset when both
    flags are off. *)
Definition metadataBlockHeight (authorLinesCount : nat) (includeAuthor includeDate : bool) : Q :=
  let h0 := 0%Q in
  let h1 := if includeAuthor then (h0 + ofnat authorLinesCount * metadataLineHeight)%Q else h0 in
  let h2 := if includeDate then (h1 + metadataLineHeight)%Q else h1 in
  if negb includeAuthor && negb includeDate then 0%Q else h2.

Definition Qgtb (a b : Q) : bool := negb (Qle_bool a b).

(** The argument of [Math.round] in line 273. *)
Definition textHeight_exact (t : tier) (titleLinesLength authorLinesCount : nat)
    (includeAuthor includeDate : bool) : Q :=
  let mbh := metadataBlockHeight authorLinesCount includeAuthor includeDate in
  (topPadding + titleBlockHeight t titleLinesLength + separatorSpacing
   + separatorHeight + (if Qgtb mbh 0 then metadataSpacing + mbh else 0)
   + bottomPadding)%Q.

Definition textHeight (t : tier) (titleLinesLength authorLinesCount : nat)
    (includeAuthor includeDate : bool) : Z :=
  Math_round (textHeight_exact t titleLinesLength authorLinesCount includeAuthor includeDate).

(** The height formula as the specification writes it. *)
Definition spec_metadataBlockHeight (authorLineCount : nat) (includeAuthor includeDate : bool) : Q :=
  ((if includeAuthor then ofnat authorLineCount * 18 else 0)
   + (if includeDate then 18 else 0))%Q.

Definition spec_textBoxHeight (t : tier) (titleLineCount authorLineCount : nat)
    (includeAuthor includeDate : bool) : Z :=
  let m := spec_metadataBlockHeight authorLineCount includeAuthor includeDate in
  Math_round (20 + ((ofnat titleLineCount - 1) * inject_Z (lineHeight t)
                    + (85 # 100) * inject_Z (titleFontSize t))
              + 12 + 2 + (if Qgtb m 0 then 15 + m else 0) + 20)%Q.

(** ** The text panel *)

(** Where the [y] of a text run is measured: an SVG [text] or [tspan]
    element is placed by its baseline; [getSVG] with [anchor: 'left top'] by
    the top of its glyph box. *)
Inductive anchor := Baseline | LeftTop.

(** What a renderer draws: each text run with the [y] it is placed at, and
    how the [y] of its runs is anchored; glyph outlines come from the font
    engine. *)
Record panel := mkPanel {
  panel_width : Z;
  panel_height : Z;
  panel_background : str;
  panel_anchor : anchor;
  panel_title : list (str * Q);
  panel_separatorY : Q;
  panel_author : list (str * Q);
  panel_source_date : list (str * Q) }.

(** [lines.map((line, i) => ... y0 + i * step ...)]. *)
Fixpoint place_from (i : nat) (y0 step : Q) (lines : list str) : list (str * Q) :=
  match lines with
  | [] => []
  | l :: ls => (l, (y0 + ofnat i * step)%Q) :: place_from (S i) y0 step ls
  end.

Definition place (y0 step : Q) (lines : list str) : list (str * Q) :=
  place_from 0 y0 step lines.

(** The bullet of the metadata line, U+2022 between two spaces. *)
Definition bullet : str := [sp; 8226%N; sp].

(** The separator as textRenderer.ts has it in its template string: the
    three code units U+00E2 U+20AC U+00A2 between two spaces. *)
Definition renderer_bullet : str := [sp; 226%N; 8364%N; 162%N; sp].

(** The inline SVG of route.ts, lines 294-343 and 353-402 (the two template
    strings differ in the [fill] of the background rectangle only). *)
Definition svg_panel (background : str) (t : tier) (textH : Z)
    (titleL authorL : list str) (includeAuthor includeDate : bool)
    (cleanSource cleanDate : str) : panel :=
  let separatorY := (titleStartY t + (ofnat (length titleL) - 1) * inject_Z (lineHeight t)
                     + separatorSpacing)%Q in
  let metadataStartY := (separatorY + separatorHeight + metadataSpacing)%Q in
  let mbh := metadataBlockHeight (length authorL) includeAuthor includeDate in
  mkPanel width textH background Baseline
    (place (titleStartY t) (inject_Z (lineHeight t)) titleL)
    separatorY
    (if Qgtb mbh 0 && includeAuthor then place metadataStartY metadataLineHeight authorL else [])
    (if Qgtb mbh 0 && includeDate
     then [(cleanSource ++ bullet ++ cleanDate,
            (metadataStartY + (if includeAuthor then ofnat (length authorL) * metadataLineHeight else 0))%Q)]
     else []).

(** [renderTextBox] of textRenderer.ts; [author] and [date] are optional.
    Every [getSVG] call passes [anchor: 'left top']. *)
Definition renderTextBox (w h : Z) (backgroundColor : str) (title : list str)
    (fontSize lineH : Z) (author : option (list str)) (date : option str)
    (source : str) (topPad sepSpacing metaSpacing metaLineHeight : Q) : panel :=
  let currentY0 := (topPad + inject_Z fontSize * (85 # 100))%Q in
  let titlePaths := place currentY0 (inject_Z lineH) title in
  let currentY1 := (currentY0 + (ofnat (length title) - 1) * inject_Z lineH)%Q in
  let currentY2 := (currentY1 + sepSpacing)%Q in
  let separatorY := currentY2 in
  let currentY3 := (currentY2 + (2 + metaSpacing))%Q in
  let drawAuthor := match author with Some (_ :: _) => true | _ => false end in
  let authorL := match author with Some a => a | None => [] end in
  let currentY4 := if drawAuthor
                   then (currentY3 + ofnat (length authorL) * metaLineHeight)%Q
                   else currentY3 in
  mkPanel w h backgroundColor LeftTop titlePaths separatorY
    (if drawAuthor then place currentY3 metaLineHeight authorL else [])
    (match date with
     | Some d => if truthy d && truthy source
                 then [(source ++ renderer_bullet ++ d, currentY4)] else []
     | None => []
     end).

(** ** Card renderer: the orientation branch (route.ts, lines 277-403) *)

Inductive fit := Cover.

(** What is handed to the compositing backend: the resize of the article
    image, its offset on the card, and the text panel with its offset. *)
Record card := mkCard {
  resize_width : Z;
  resize_height : Z;
  resize_fit : fit;
  image_top : Z;
  text_panel : panel;
  text_top : Z;
  corner_radius : Z }.

Definition opaque_white : str := lit "#FFFFFF".
Definition translucent_white : str := lit "rgba(255, 255, 255, 0.85)".

(** [(imageMetadata.width || 0) > (imageMetadata.height || 0)]. *)
Definition isHorizontal (imgWidth imgHeight : option Z) : bool :=
  (match imgHeight with Some h => h | None => 0 end
   <? match imgWidth with Some w => w | None => 0 end)%Z.

(** The branch, for a renderer [mk] of the panel given its background. *)
Definition compose_card (mk : str -> panel) (textH : Z) (imgWidth imgHeight : option Z) : card :=
  let imageHeight := (totalHeight - textH)%Z in
  if isHorizontal imgWidth imgHeight
  then mkCard width imageHeight Cover 0 (mk opaque_white) imageHeight 16
  else mkCard width totalHeight Cover 0 (mk translucent_white) imageHeight 16.

(** ** Text normaliser: date formatting (route.ts, lines 143-164) *)

Inductive month :=
| January | February | March | April | May | June
| July | August | September | October | November | December.

(** A calendar date in the server's time zone, as [toLocaleDateString]
    reads it off a [Date]. *)
Record civil_date := mkDate { date_year : nat; date_month : month; date_day : nat }.

Definition month_long (m : month) : str :=
  match m with
  | January => lit "January" | February => lit "February" | March => lit "March"
  | April => lit "April" | May => lit "May" | June => lit "June"
  | July => lit "July" | August => lit "August" | September => lit "September"
  | October => lit "October" | November => lit "November" | December => lit "December"
  end.

Definition month_short (m : month) : str :=
  match m with
  | January => lit "Jan" | February => lit "Feb" | March => lit "Mar"
  | April => lit "Apr" | May => lit "May" | June => lit "Jun"
  | July => lit "Jul" | August => lit "Aug" | September => lit "Sep"
  | October => lit "Oct" | November => lit "Nov" | December => lit "Dec"
  end.

(** Decimal digits of a number. *)
Definition dec (n : nat) : str := lit (NilZero.string_of_uint (Nat.to_uint n)).

Definition dec2 (n : nat) : str := if n <? 10 then lit "0" ++ dec n else dec n.

(** [toLocaleDateString('en-US', {month: 'long', day: 'numeric', year: 'numeric'})]. *)
Definition format_long (d : civil_date) : str :=
  month_long (date_month d) ++ lit " " ++ dec (date_day d) ++ lit ", " ++ dec (date_year d).

(** [toLocaleDateString('en-US', {month: 'short', day: '2-digit', year: 'numeric'})]. *)
Definition format_short (d : civil_date) : str :=
  month_short (date_month d) ++ lit " " ++ dec2 (date_day d) ++ lit ", " ++ dec (date_year d).

(** [.replace(/,/g, '').replace(/ /g, '-')]. *)
Definition dashed (s : str) : str :=
  map (fun c => if N.eqb c sp then dash else c) (filter (fun c => negb (N.eqb c comma)) s).

(** ** JSON values (the results of [JSON.parse]) *)

(** A number is kept as its JS string conversion, which determines it. *)
#[local] Set Warnings "-register-all".
Inductive json :=
| JNull
| JBool (b : bool)
| JNum (text : str)
| JStr (s : str)
| JArr (items : list json)
| JObj (members : list (str * json)).

Definition truthy_json (v : json) : bool :=
  match v with
  | JNull => false
  | JBool b => b
  | JNum t => negb (str_eqb t (lit "0"))
  | JStr s => truthy s
  | JArr _ | JObj _ => true
  end.

(** A value that may be [undefined]. *)
Definition truthy_opt (v : option json) : bool :=
  match v with Some x => truthy_json x | None => false end.

Fixpoint lookup (k : str) (members : list (str * json)) : option json :=
  match members with
  | [] => None
  | (k', v) :: rest => if str_eqb k k' then Some v else lookup k rest
  end.

(** [v.k] for a key that no prototype defines: [None] is a TypeError (the
    receiver is [null]), [Some None] is [undefined]. *)
Definition prop (k : str) (v : json) : option (option json) :=
  match v with
  | JNull => None
  | JObj members => Some (lookup k members)
  | _ => Some None
  end.

Fixpoint all_some {A : Type} (xs : list (option A)) : option (list A) :=
  match xs with
  | [] => Some []
  | None :: _ => None
  | Some x :: rest =>
      match all_some rest with Some r => Some (x :: r) | None => None end
  end.

(** String conversion; [None] is the TypeError of an object whose own
    [toString] member shadows the inherited method. An array converts by
    joining its elements with a comma, [null] elements as empty strings. *)
Fixpoint to_string (v : json) : option str :=
  match v with
  | JNull => Some (lit "null")
  | JBool true => Some (lit "true")
  | JBool false => Some (lit "false")
  | JNum t => Some t
  | JStr s => Some s
  | JArr items =>
      match all_some (map (fun x => match x with JNull => Some [] | _ => to_string x end) items) with
      | Some parts => Some (join (lit ",") parts)
      | None => None
      end
  | JObj members =>
      match lookup (lit "toString") members with
      | Some _ => None
      | None => Some (lit "[object Object]")
      end
  end.

(** [items.join(sep)] on an array of values. *)
Definition join_values (sep : str) (items : list json) : option str :=
  match all_some (map (fun x => match x with JNull => Some [] | _ => to_string x end) items) with
  | Some parts => Some (join sep parts)
  | None => None
  end.

(** A date as [new Date(v).toLocaleDateString(...)] sees it. *)
Inductive date_result :=
| DateOk (d : civil_date)
| DateInvalid
| DateThrows.

Section DateFormat.

Variable Date_parse : json -> date_result.
Variable today : civil_date.

Definition today_dashed : str := dashed (format_short today).

Definition formattedDate (date : json) : str :=
  if truthy_json date then
    match Date_parse date with
    | DateOk d => format_long d
    | DateInvalid => lit "Invalid Date"
    | DateThrows => today_dashed
    end
  else today_dashed.

(** The date formatter as the specification words it: the long form of the
    parsed date, and the long form of the current date for an empty string,
    a string that does not parse, or an exception. *)
Definition spec_formattedDate (raw : str) : str :=
  if truthy raw then
    match Date_parse (JStr raw) with
    | DateOk d => format_long d
    | _ => format_long today
    end
  else format_long today.

End DateFormat.

(** ** Field resolver *)

(** The queries the handler makes on the parsed page. An [attr('content')]
    is [None] when it is [undefined]; [text()] is always a string; a JSON-LD
    script is the value [JSON.parse] returns for it, or [None] when
    [JSON.parse] throws. *)
Record document := mkDocument {
  og_title : option str;
  twitter_title : option str;
  title_text : str;
  og_image : option str;
  twitter_image : option str;
  og_image_url : option str;
  jsonLdScripts : list (option json);
  meta_author : option str;
  rel_author_text : str;
  class_author_text : str;
  article_author : option str;
  article_published_time : option str;
  publish_date : option str;
  time_datetime : option str;
  og_site_name : option str;
  application_name : option str }.

(** [a || rest] for an attribute [a]. *)
Definition attr_or (a : option str) (rest : str) : str :=
  match a with
  | Some s => if truthy s then s else rest
  | None => rest
  end.

Definition extract_title (doc : document) : str :=
  attr_or (og_title doc) (attr_or (twitter_title doc)
    (or_else (title_text doc) (lit "Untitled Article"))).

Definition extract_imageUrl (doc : document) : str :=
  attr_or (og_image doc) (attr_or (twitter_image doc) (attr_or (og_image_url doc) [])).

(** The three variables [author], [source] and [date] of the handler; a
    JSON-LD member of any type can be assigned to them. *)
Record fields := mkFields { author : json; source : json; date : json }.

Definition initial_fields : fields := mkFields (JStr []) (JStr []) (JStr []).

Definition set_author (v : json) (f : fields) : fields := mkFields v (source f) (date f).
Definition set_source (v : json) (f : fields) : fields := mkFields (author f) v (date f).
Definition set_date (v : json) (f : fields) : fields := mkFields (author f) (source f) v.

(** *** The article:author heuristic (part_001, lines 184-199) *)

(** [.] matches every code unit but a line terminator; [(.+)$] matches a
    non-empty rest of the input without line terminator. *)
Definition dot_plus_to_end (s : str) : bool :=
  truthy s && forallb (fun c => negb (is_line_terminator c)) s.

(** [s.match(/profile\/(.+)$/)]: the capture group of the leftmost match. *)
Fixpoint match_profile (s : str) : option str :=
  if starts_with (lit "profile/") s && dot_plus_to_end (skipn 8 s)
  then Some (skipn 8 s)
  else match s with
       | [] => None
       | _ :: s' => match_profile s'
       end.

(** [s.replace(/-/g, ' ')]. *)
Definition dashes_to_spaces (s : str) : str :=
  map (fun c => if N.eqb c dash then sp else c) s.

(** [s.replace(/\b\w/g, c => c.toUpperCase())]: a word character is matched
    when the code unit before it is not one; [prev_word] tells whether it
    is. *)
Fixpoint title_case_from (prev_word : bool) (s : str) : str :=
  match s with
  | [] => []
  | c :: s' =>
      (if is_word c && negb prev_word then upper_ascii c else c)
        :: title_case_from (is_word c) s'
  end.

Definition title_case (s : str) : str := title_case_from false s.

Definition profile_name (url : str) : str :=
  match match_profile (trim url) with
  | Some m => title_case (dashes_to_spaces m)
  | None => []
  end.

Definition profile_names (articleAuthor : str) : str :=
  join (lit ", ") (filter truthy (map profile_name (split_on comma articleAuthor))).

(** *** The JSON-LD scan (part_001, lines 134-175) *)

(** [data.author.map((a) => a.name || a).filter(Boolean).join(', ')];
    [None] when it throws. *)
Definition author_of_array (items : list json) : option json :=
  match all_some (map (fun a =>
                         match prop (lit "name") a with
                         | None => None
                         | Some n => Some (if truthy_opt n
                                           then match n with Some v => v | None => a end
                                           else a)
                         end) items) with
  | None => None
  | Some mapped =>
      match join_values (lit ", ") (filter truthy_json mapped) with
      | Some s => Some (JStr s)
      | None => None
      end
  end.

(** The three guarded statements of the loop body; [None] when the statement
    throws, which leaves the variables as they were before it. *)
Definition extract_author (data : json) (f : fields) : option fields :=
  if truthy_json (author f) then Some f
  else match prop (lit "author") data with
       | None => None
       | Some None => Some f
       | Some (Some a) =>
           if truthy_json a then
             match a with
             | JArr items =>
                 match author_of_array items with
                 | Some v => Some (set_author v f)
                 | None => None
                 end
             | JObj members =>
                 match lookup (lit "name") members with
                 | Some n => if truthy_json n then Some (set_author n f) else Some f
                 | None => Some f
                 end
             | JStr s => Some (set_author (JStr s) f)
             | _ => Some f
             end
           else Some f
       end.

Definition extract_source (data : json) (f : fields) : option fields :=
  if truthy_json (source f) then Some f
  else match prop (lit "publisher") data with
       | None => None
       | Some None => Some f
       | Some (Some p) =>
           if truthy_json p then
             match p with
             | JObj members =>
                 match lookup (lit "name") members with
                 | Some n => if truthy_json n then Some (set_source n f) else Some f
                 | None => Some f
                 end
             | JStr s => Some (set_source (JStr s) f)
             | _ => Some f
             end
           else Some f
       end.

Definition extract_date (data : json) (f : fields) : option fields :=
  if truthy_json (date f) then Some f
  else match prop (lit "datePublished") data with
       | None => None
       | Some None => Some f
       | Some (Some d) => if truthy_json d then Some (set_date d f) else Some f
       end.

Inductive completion := Normal | Break | Throw.

(** The body of [for (const data of dataArray)]. *)
Definition scan_object (data : json) (f : fields) : completion * fields :=
  match extract_author data f with
  | None => (Throw, f)
  | Some f1 =>
      match extract_source data f1 with
      | None => (Throw, f1)
      | Some f2 =>
          match extract_date data f2 with
          | None => (Throw, f2)
          | Some f3 =>
              if truthy_json (author f3) && truthy_json (source f3) && truthy_json (date f3)
              then (Break, f3) else (Normal, f3)
          end
      end
  end.

Fixpoint scan_objects (dataArray : list json) (f : fields) : fields :=
  match dataArray with
  | [] => f
  | data :: rest =>
      match scan_object data f with
      | (Normal, f') => scan_objects rest f'
      | (_, f') => f'
      end
  end.

(** The callback of [jsonLdScripts.each]: a script that does not parse, or
    an exception in the loop, is caught and logged. *)
Definition scan_script (script : option json) (f : fields) : fields :=
  match script with
  | None => f
  | Some parsed =>
      scan_objects (match parsed with JArr items => items | _ => [parsed] end) f
  end.

Definition scan_scripts (scripts : list (option json)) (f : fields) : fields :=
  fold_left (fun acc script => scan_script script acc) scripts f.

(** *** The fallback tiers (part_001, lines 177-231) *)

Definition fallback_author (doc : document) (f : fields) : fields :=
  if truthy_json (author f) then f
  else
    let metaAuthor :=
      attr_or (meta_author doc)
        (or_else (trim (rel_author_text doc)) (or_else (trim (class_author_text doc)) [])) in
    if negb (truthy metaAuthor) then
      let articleAuthor := attr_or (article_author doc) [] in
      if includes (lit "profile/") articleAuthor
      then set_author (JStr (profile_names articleAuthor)) f
      else set_author (JStr articleAuthor) f
    else set_author (JStr metaAuthor) f.

Definition fallback_date (doc : document) (f : fields) : fields :=
  if truthy_json (date f) then f
  else set_date (JStr (attr_or (article_published_time doc)
                         (attr_or (publish_date doc) (attr_or (time_datetime doc) [])))) f.

Definition fallback_source (doc : document) (f : fields) : fields :=
  if truthy_json (source f) then f
  else set_source (JStr (attr_or (og_site_name doc) (attr_or (application_name doc) []))) f.

(** [hostname] is [new URL(url).hostname], or [None] when [new URL] throws. *)
Definition fallback_hostname (hostname : option str) (f : fields) : fields :=
  if truthy_json (source f) then f
  else match hostname with
       | Some h => set_source (JStr (replace_first (lit "www.") [] h)) f
       | None => set_source (JStr (lit "Unknown Source")) f
       end.

Definition fallback_unknown_author (f : fields) : fields :=
  if truthy_json (author f) then f else set_author (JStr (lit "Unknown Author")) f.

(** The tiers of the cascade in the order the handler runs them: one per
    JSON-LD script, then the fallbacks. *)
Definition tiers (doc : document) (hostname : option str) : list (fields -> fields) :=
  map scan_script (jsonLdScripts doc)
  ++ [fallback_author doc; fallback_date doc; fallback_source doc;
      fallback_hostname hostname; fallback_unknown_author].

Definition run_tiers (ts : list (fields -> fields)) (f : fields) : fields :=
  fold_left (fun acc t => t acc) ts f.

Definition resolve_fields (doc : document) (hostname : option str) : fields :=
  fallback_unknown_author
    (fallback_hostname hostname
       (fallback_source doc
          (fallback_date doc
             (fallback_author doc (scan_scripts (jsonLdScripts doc) initial_fields))))).

(** *** The resolver of the single-fetch handler (route.ts, lines 66-140) *)

Module Route.

(** [data.author.map((a) => a.name).join(', ')]: an [undefined] name joins
    as the empty string. *)
Definition author_of_array (items : list json) : option json :=
  match all_some (map (fun a =>
                         match prop (lit "name") a with
                         | None => None
                         | Some (Some v) => Some v
                         | Some None => Some JNull
                         end) items) with
  | None => None
  | Some mapped =>
      match join_values (lit ", ") mapped with
      | Some s => Some (JStr s)
      | None => None
      end
  end.

Definition extract_author (data : json) (f : fields) : option fields :=
  if truthy_json (author f) then Some f
  else match prop (lit "author") data with
       | None => None
       | Some None => Some f
       | Some (Some a) =>
           if truthy_json a then
             match a with
             | JArr items =>
                 match author_of_array items with
                 | Some v => Some (set_author v f)
                 | None => None
                 end
             | JObj members =>
                 match lookup (lit "name") members with
                 | Some n => if truthy_json n then Some (set_author n f) else Some f
                 | None => Some f
                 end
             | JStr s => Some (set_author (JStr s) f)
             | _ => Some f
             end
           else Some f
       end.

(** The callback of [jsonLdScripts.each]: the parsed value is examined as
    one object. *)
Definition scan_script (script : option json) (f : fields) : fields :=
  match script with
  | None => f
  | Some data =>
      match extract_author data f with
      | None => f
      | Some f1 =>
          match extract_source data f1 with
          | None => f1
          | Some f2 =>
              match extract_date data f2 with
              | None => f2
              | Some f3 => f3
              end
          end
      end
  end.

Definition fallback_author (doc : document) (f : fields) : fields :=
  if truthy_json (author f) then f
  else set_author
         (JStr (attr_or (meta_author doc)
                  (attr_or (article_author doc)
                     (or_else (trim (rel_author_text doc))
                        (or_else (trim (class_author_text doc)) []))))) f.

Definition resolve_fields (doc : document) (hostname : option str) : fields :=
  fallback_unknown_author
    (fallback_hostname hostname
       (fallback_source doc
          (fallback_date doc
             (fallback_author doc
                (fold_left (fun acc script => scan_script script acc)
                   (jsonLdScripts doc) initial_fields))))).

End Route.

(** ** The request handler *)

(** A value caught by [catch (error)]: an [Error] with its message, or any
    other value. *)
Inductive thrown := ErrorObject (message : str) | OtherValue.

(** A response to the page fetch; [page] is the parsed body, [None] when
    reading it throws. *)
Record page_response := mkResponse {
  status : nat;
  statusText : str;
  page : option document }.

(** [response.ok]. *)
Definition ok (r : page_response) : bool := (200 <=? status r) && (status r <=? 299).

Inductive fetch_result := Responded (r : page_response) | Rejected (e : thrown).

(** The image fetch: it fails (rejected, not ok, or unreadable), or gives
    bytes whose intrinsic [width] and [height] the image backend reports
    ([None] when reading the metadata throws). *)
Inductive image_result :=
| ImageFailed
| ImageFetched (metadata : option (option Z * option Z)).

(** The collaborators of one request: the runtime's case mapping, URL and
    date parsers and clock, the answer to each call of [fetch], and whether
    the image backend completes the resize and the composite. *)
Record world := mkWorld {
  toUpperCase : str -> str;
  URL_hostname : str -> option str;
  Date_parse : json -> date_result;
  today : civil_date;
  fetch_page : nat -> fetch_result;
  fetch_image : str -> image_result;
  composite : card -> bool }.

(** The request body: [url] is [None] when it is missing or not a string;
    the two flags by their truthiness, [true] when absent. *)
Record body := mkBody { url : option str; includeAuthor : bool; includeDate : bool }.

Inductive event :=
| FetchPage (url : str)
| Sleep (ms : nat)
| FetchImage (url : str).

Inductive reply :=
| Error (status : nat) (error : str)
| Success (image : card) (title : str) (author : json) (date : str)
          (source : json) (imageUrl : str).

Definition unexpected : reply :=
  Error 500 (lit "An unexpected error occurred while generating the image").

Definition no_image : reply :=
  Error 400 (lit "No article image found. Please try a different article.").

(** The renderer of the text panel: [inline_svg] is the template string of
    route.ts, [text_to_svg] the call of [renderTextBox] in part_001. *)
Definition renderer : Type :=
  str -> tier -> Z -> list str -> list str -> bool -> bool -> str -> str -> panel.

Definition inline_svg : renderer := svg_panel.

Definition text_to_svg : renderer :=
  fun background t textH titleL authorL incAuthor incDate cleanSource cleanDate =>
    renderTextBox width textH background titleL (titleFontSize t) (lineHeight t)
      (if incAuthor then Some authorL else None)
      (if incDate then Some cleanDate else None)
      cleanSource topPadding separatorSpacing metadataSpacing metadataLineHeight.

(** From the resolved fields to the reply (route.ts, lines 142-452): the
    date is formatted, a missing image ends the request, the image is
    fetched, the texts are cleaned and wrapped, the card is laid out and
    composited. A field that is not a string makes its clean-up throw. *)
Definition generate (w : world) (render : renderer) (b : body) (doc : document)
    (f : fields) (log : list event) : reply * list event :=
  let title := extract_title doc in
  let imageUrl := extract_imageUrl doc in
  let formatted := formattedDate (Date_parse w) (today w) (date f) in
  if negb (truthy imageUrl) then (no_image, log)
  else
    let log1 := log ++ [FetchImage imageUrl] in
    match fetch_image w imageUrl with
    | ImageFailed => (Error 500 (lit "Failed to fetch article image"), log1)
    | ImageFetched metadata =>
        let cleanT := cleanTitle title in
        match author f, source f with
        | JStr a, JStr s =>
            let cleanAuthor := toUpperCase w (cleanAuthorName a) in
            let cleanDate := toUpperCase w formatted in
            let cleanSource := toUpperCase w s in
            let authorLines := wrap maxAuthorCharsPerLine cleanAuthor in
            let t := title_tier cleanT in
            let titleL := wrap (maxCharsPerLine t) cleanT in
            let textH := textHeight t (length titleL) (length authorLines)
                           (includeAuthor b) (includeDate b) in
            match metadata with
            | None => (unexpected, log1)
            | Some (imgWidth, imgHeight) =>
                let c := compose_card
                           (fun background =>
                              render background t textH titleL authorLines
                                (includeAuthor b) (includeDate b) cleanSource cleanDate)
                           textH imgWidth imgHeight in
                if composite w c
                then (Success c title (author f) formatted (source f) imageUrl, log1)
                else (unexpected, log1)
            end
        | _, _ => (unexpected, log1)
        end
    end.

(** *** The fetch shim (part_001, lines 40-96) *)

Definition maxRetries : nat := 3.

Record fetch_state := mkFetchState {
  htmlResponse : option page_response;
  lastError : option thrown;
  events : list event }.

Definition backoffMs (attempt : nat) : nat := 2 ^ attempt * 1000.

(** The [for] loop over the attempts still to make. *)
Fixpoint run_attempts (w : world) (u : str) (attempts : list nat) (st : fetch_state)
    : fetch_state :=
  match attempts with
  | [] => st
  | attempt :: rest =>
      let log := events st ++ [FetchPage u] in
      match fetch_page w attempt with
      | Responded r =>
          if ok r || (400 <=? status r) && (status r <? 500)
          then mkFetchState (Some r) (lastError st) log
          else if (500 <=? status r) && (attempt <? maxRetries - 1)
               then run_attempts w u rest
                      (mkFetchState (Some r) (lastError st) (log ++ [Sleep (backoffMs attempt)]))
               else mkFetchState (Some r) (lastError st) log
      | Rejected e =>
          if attempt <? maxRetries - 1
          then run_attempts w u rest
                 (mkFetchState (htmlResponse st) (Some e) (log ++ [Sleep (backoffMs attempt)]))
          else run_attempts w u rest (mkFetchState (htmlResponse st) (Some e) log)
      end
  end.

Definition fetch_with_retry (w : world) (u : str) : fetch_state :=
  run_attempts w u (seq 0 maxRetries) (mkFetchState None None []).

(** [lastError instanceof Error ? lastError.message : 'Network error']. *)
Definition failure_reason (e : option thrown) : str :=
  match e with
  | Some (ErrorObject m) => m
  | _ => lit "Network error"
  end.

(** [NextResponse.json({ error }, { status })] inside the [try]: the
    [Response] it builds throws a [RangeError] for a status outside 200..599
    and a [TypeError] for a body with a null-body status (101, 103, 204,
    205, 304); the outer [catch] then replies the catch-all 500. *)
Definition null_body_status (st : nat) : bool :=
  (st =? 101) || (st =? 103) || (st =? 204) || (st =? 205) || (st =? 304).

Definition reply_status (st : nat) : bool :=
  (200 <=? st) && (st <=? 599) && negb (null_body_status st).

Definition json_error (st : nat) (error : str) : reply :=
  if reply_status st then Error st error else unexpected.

(** [POST] of part_001; [request] is [None] when [request.json()] throws. *)
Definition POST (w : world) (request : option body) : reply * list event :=
  match request with
  | None => (unexpected, [])
  | Some b =>
      match url b with
      | None => (Error 400 (lit "URL is required"), [])
      | Some u =>
          if negb (truthy u) then (Error 400 (lit "URL is required"), [])
          else
            match URL_hostname w u with
            | None => (Error 400 (lit "Invalid URL format"), [])
            | Some hostname =>
                let st := fetch_with_retry w u in
                match htmlResponse st with
                | None =>
                    (Error 500 (lit "Failed to fetch article: " ++ failure_reason (lastError st)),
                     events st)
                | Some r =>
                    if status r =? 403
                    then (Error 403 (lit "This news site is blocking automated access (403). Try a different article."),
                          events st)
                    else if negb (ok r)
                    then (json_error (status r)
                            (lit "Failed to fetch article: " ++ dec (status r) ++ lit " " ++ statusText r),
                          events st)
                    else
                      match page r with
                      | None => (unexpected, events st)
                      | Some doc =>
                          generate w text_to_svg b doc
                            (resolve_fields doc (Some hostname)) (events st)
                      end
                end
            end
      end
  end.

Module RouteHandler.

(** [POST] of route.ts: one fetch; a rejected fetch is caught by the outer
    [catch]. *)
Definition POST (w : world) (request : option body) : reply * list event :=
  match request with
  | None => (unexpected, [])
  | Some b =>
      match url b with
      | None => (Error 400 (lit "URL is required"), [])
      | Some u =>
          if negb (truthy u) then (Error 400 (lit "URL is required"), [])
          else
            match URL_hostname w u with
            | None => (Error 400 (lit "Invalid URL format"), [])
            | Some hostname =>
                match fetch_page w 0 with
                | Rejected _ => (unexpected, [FetchPage u])
                | Responded r =>
                    if negb (ok r)
                    then (json_error (status r)
                            (lit "Failed to fetch article: " ++ dec (status r) ++ lit " " ++ statusText r),
                          [FetchPage u])
                    else
                      match page r with
                      | None => (unexpected, [FetchPage u])
                      | Some doc =>
                          generate w inline_svg b doc
                            (Route.resolve_fields doc (Some hostname)) [FetchPage u]
                      end
                end
            end
      end
  end.

End RouteHandler.

(** The property of the wrapped lines as the specification words it: a line
    is strictly shorter than the budget, unless it is a single word of the
    input that alone exceeds the budget. *)
Definition wrap_bound_claimed (budget : nat) (s : str) : Prop :=
  forall line, In line (wrap budget s) ->
    length line < budget \/ (In line (split_on sp s) /\ budget < length line).

(** The property the reducer has: the exception covers every single word
    that does not fit, a word of exactly the budget included. *)
Definition wrap_bound (budget : nat) (s : str) : Prop :=
  forall line, In line (wrap budget s) ->
    length line < budget \/ (In line (split_on sp s) /\ budget <= length line).

(** The number of wrapped lines that contain text. *)
Definition text_lines (lines : list str) : nat := length (filter truthy lines).

(** The count of lines as the specification words it: one more than the
    number of lines that contain text. *)
Definition seed_count_claimed (budget : nat) (s : str) : Prop :=
  length (wrap budget s) = S (text_lines (wrap budget s)).

(** The integer parts of the text-box height: the metadata rows, and the
    paddings, separator and rounded [0.85 * fontSize] of a tier. *)
Definition metadata_px (a : nat) (ia id : bool) : Z :=
  (if ia then Z.of_nat a * 18 else 0) + (if id then 18 else 0).

Definition tier_base (t : tier) : Z :=
  match titleFontSize t with 36 => 85 | 42 => 90 | _ => 95 end%Z.

(** A date parser for examples: it knows one ISO date. *)
Definition sample_Date_parse (v : json) : date_result :=
  match v with
  | JStr s => if str_eqb s (lit "2024-01-05") then DateOk (mkDate 2024 January 5)
              else DateInvalid
  | _ => DateInvalid
  end.

Definition is_digit (c : char) : bool := ((48 <=? c) && (c <=? 57))%N.













(** The page of scenario D: only [article:author] names the authors. *)
Definition scenario_D : document :=
  mkDocument (Some (lit "Big Story")) None [] (Some (lit "https://x/img.jpg")) None None
    [] None [] []
    (Some (lit "https://site.com/profile/john-smith, https://site.com/profile/jane-doe"))
    None None None None None.

(** [keeps f g]: every field that is non-empty in [f] has the same value
    in [g]. *)
Definition keeps (f g : fields) : Prop :=
  (truthy_json (author f) = true -> author g = author f)
  /\ (truthy_json (source f) = true -> source g = source f)
  /\ (truthy_json (date f) = true -> date g = date f).

(** A page with two JSON-LD scripts that both name an author, and a meta
    tag that names one too. *)
Definition two_scripts : document :=
  mkDocument (Some (lit "Big Story")) None [] (Some (lit "https://x/img.jpg")) None None
    [Some (JObj [(lit "author", JObj [(lit "name", JStr (lit "Jane Doe"))])]);
     Some (JArr [JObj [(lit "author", JStr (lit "Someone Else"));
                       (lit "publisher", JObj [(lit "name", JStr (lit "Daily News"))]);
                       (lit "datePublished", JStr (lit "2024-01-05"))]])]
    (Some (lit "Meta Author")) [] [] None None None None (Some (lit "Site Name")) None.

(** *** Reading the log of a request *)

Definition is_fetch_page (e : event) : bool :=
  match e with FetchPage _ => true | _ => false end.

Definition is_fetch_image (e : event) : bool :=
  match e with FetchImage _ => true | _ => false end.

(** The number of page fetches of a log. *)
Definition fetches (log : list event) : nat := length (filter is_fetch_page log).

(** An attempt that the shim retries when attempts remain: the fetch was
    rejected (a network-level failure) or answered with a 5xx status. *)
Definition retryable (w : world) (attempt : nat) : Prop :=
  match fetch_page w attempt with
  | Rejected _ => True
  | Responded r => 500 <= status r
  end.

(** An answer that ends the loop at once: 2xx or 4xx. *)
Definition final_answer (r : page_response) : Prop :=
  ok r = true \/ (400 <= status r /\ status r < 500).

(** The log of [k] retried attempts: each fetch followed by its back-off. *)
Definition retried (u : str) (k : nat) : list event :=
  flat_map (fun attempt => [FetchPage u; Sleep (2 ^ attempt * 1000)]) (seq 0 k).

(** An [attr('content')] without content. *)
Definition no_content (a : option str) : Prop := a = None \/ a = Some [].

(** A world for examples: ASCII upper-casing, [https://host/...] URLs, the
    sample date parser, and given answers to the fetches. *)
Definition sample_hostname (u : str) : option str :=
  if starts_with (lit "https://") u
  then Some (take_while (fun c => negb (N.eqb c slash)) (skipn 8 u))
  else None.

Definition sample_world (pages : nat -> fetch_result) (image : image_result) : world :=
  mkWorld (map upper_ascii) sample_hostname sample_Date_parse (mkDate 2026 November 2)
    pages (fun _ => image) (fun _ => true).

(** A page without any image meta tag (scenario B). *)
Definition scenario_B : document :=
  mkDocument (Some (lit "Big Story")) None [] None None None
    [] (Some (lit "Jane Doe")) [] [] None None None None None None.

Definition sample_request : body := mkBody (Some (lit "https://news.example.com/a")) true true.

(** The number of spaces of a string. *)
Definition count_spaces (s : str) : nat := length (filter (N.eqb sp) s).

(** White space reduced to single spaces: every white-space code unit is a
    space, and the code unit after it is not white space. *)
Fixpoint single_spaced (s : str) : bool :=
  match s with
  | [] => true
  | c :: s' =>
      (if is_space c
       then N.eqb c sp && match s' with [] => true | d :: _ => negb (is_space d) end
       else true)
      && single_spaced s'
  end.

(** Neither the first nor the last code unit is white space. *)
Definition trimmed (s : str) : Prop :=
  match s with
  | [] => True
  | c :: _ => is_space c = false /\ is_space (last s c) = false
  end.

(** The three tiers [title_tier] chooses from. *)
Definition handler_tiers : list tier := [mkTier 36 44 35; mkTier 42 50 30; mkTier 48 58 25].

(** Every text run of a panel: title lines, author lines, source and date. *)
Definition panel_runs (p : panel) : list (str * Q) :=
  panel_title p ++ panel_author p ++ panel_source_date p.

(** The glyph box of a run placed at [y], for glyphs that reach [ascent]
    above their baseline and [descent] below it. *)
Definition run_top (a : anchor) (ascent y : Q) : Q :=
  match a with
  | Baseline => (y - ascent)%Q
  | LeftTop => y
  end.

Definition run_bottom (a : anchor) (ascent descent y : Q) : Q :=
  match a with
  | Baseline => (y + descent)%Q
  | LeftTop => (y + ascent + descent)%Q
  end.

(** The [y] of the last title line. *)
Definition last_title_y (p : panel) : Q := snd (last (panel_title p) ([], 0%Q)).

(** Two lists of text runs with the same texts and the same [y]. *)
Definition same_runs (a b : list (str * Q)) : Prop :=
  Forall2 (fun x y => fst x = fst y /\ (snd x == snd y)%Q) a b.

(** Two lists of text runs with the same [y]. *)
Definition same_positions (a b : list (str * Q)) : Prop :=
  Forall2 (fun x y => (snd x == snd y)%Q) a b.

(** An entry of a JSON-LD [author] array that names an author: a string, or
    an object whose [name] is a non-empty string. *)
Inductive author_entry : json -> str -> Prop :=
| entry_string (n : str) : author_entry (JStr n) n
| entry_named (members : list (str * json)) (n : str) :
    lookup (lit "name") members = Some (JStr n) -> n <> [] ->
    author_entry (JObj members) n.

(** A parsed script without anything to extract: not an object, or an
    object without [author], [publisher] and [datePublished]; an array of
    such values. *)
Definition inert_object (v : json) : bool :=
  match v with
  | JObj members =>
      match lookup (lit "author") members, lookup (lit "publisher") members,
            lookup (lit "datePublished") members with
      | None, None, None => true
      | _, _, _ => false
      end
  | _ => true
  end.

Definition inert_script (script : option json) : bool :=
  match script with
  | None => true
  | Some (JArr items) => forallb inert_object items
  | Some v => inert_object v
  end.

(** The milliseconds a log spends in back-off. *)
Fixpoint total_sleep (log : list event) : nat :=
  match log with
  | [] => 0
  | Sleep ms :: rest => ms + total_sleep rest
  | _ :: rest => total_sleep rest
  end.

(** The latest answer among the three attempts, if any attempt was
    answered. *)
Definition last_response (w : world) : option page_response :=
  match fetch_page w 2, fetch_page w 1, fetch_page w 0 with
  | Responded r, _, _ => Some r
  | _, Responded r, _ => Some r
  | _, _, Responded r => Some r
  | _, _, _ => None
  end.

(** The reply that passes through the status and the status text of a page
    that was answered with a status outside 2xx. *)
Definition fetch_failed (r : page_response) : reply :=
  Error (status r) (lit "Failed to fetch article: " ++ dec (status r) ++ lit " " ++ statusText r).

Definition blocked : reply :=
  Error 403 (lit "This news site is blocking automated access (403). Try a different article.").

(** A request with a usable URL: a non-empty string that the URL parser
    accepts. *)
Definition valid_url (w : world) (b : body) : Prop :=
  exists u hostname, url b = Some u /\ truthy u = true /\ URL_hostname w u = Some hostname.

(** Worlds for examples: a 503 and then the page of scenario D; a network
    failure and then a 403; a 502 and then network failures. *)
Definition world_503_then_page : world :=
  sample_world
    (fun attempt =>
       match attempt with
       | 0 => Responded (mkResponse 503 (lit "Service Unavailable") None)
       | _ => Responded (mkResponse 200 (lit "OK") (Some scenario_D))
       end) ImageFailed.

Definition world_failure_then_403 : world :=
  sample_world
    (fun attempt =>
       match attempt with
       | 0 => Rejected (ErrorObject (lit "fetch failed"))
       | _ => Responded (mkResponse 403 (lit "Forbidden") None)
       end) ImageFailed.

Definition world_502_then_failures : world :=
  sample_world
    (fun attempt =>
       match attempt with
       | 0 => Responded (mkResponse 502 (lit "Bad Gateway") None)
       | _ => Rejected (ErrorObject (lit "fetch failed"))
       end) ImageFailed.

Definition sample_url : str := lit "https://news.example.com/a".

(** A page whose JSON-LD gives a number as the author's name. *)
Definition numeric_author : document :=
  mkDocument (Some (lit "Big Story")) None [] (Some (lit "https://x/img.jpg")) None None
    [Some (JObj [(lit "author", JObj [(lit "name", JNum (lit "5"))])])]
    None [] [] None None None None None None.

Definition world_numeric_author : world :=
  sample_world (fun _ => Responded (mkResponse 200 (lit "OK") (Some numeric_author)))
    (ImageFetched (Some (Some 1200%Z, Some 600%Z))).

Definition world_image_fails : world :=
  sample_world (fun _ => Responded (mkResponse 200 (lit "OK") (Some scenario_D))) ImageFailed.

Definition world_scenario_D : world :=
  sample_world (fun _ => Responded (mkResponse 200 (lit "OK") (Some scenario_D)))
    (ImageFetched (Some (Some 600%Z, Some 900%Z))).

(** ** The page (part_001, [Home]) *)

Module Home.

(** [data.metadata] of a success reply. *)
Record article := mkArticle {
  title : str; author : json; date : str; source : json; imageUrl : str }.

(** The state hooks of the component; [None] for [null] or [undefined]. *)
Record state := mkState {
  url : str;
  loading : bool;
  error : str;
  generatedImage : option card;
  metadata : option article;
  includeAuthor : bool;
  includeDate : bool }.

Definition setLoading (v : bool) (s : state) : state :=
  mkState (url s) v (error s) (generatedImage s) (metadata s) (includeAuthor s) (includeDate s).

Definition setError (v : str) (s : state) : state :=
  mkState (url s) (loading s) v (generatedImage s) (metadata s) (includeAuthor s) (includeDate s).

Definition setGeneratedImage (v : option card) (s : state) : state :=
  mkState (url s) (loading s) (error s) v (metadata s) (includeAuthor s) (includeDate s).

Definition setMetadata (v : option article) (s : state) : state :=
  mkState (url s) (loading s) (error s) (generatedImage s) v (includeAuthor s) (includeDate s).

(** The initial values of the hooks. *)
Definition initial : state := mkState [] false [] None None true true.

(** [onChange] of the input field: [setUrl(e.target.value); setError('')]. *)
Definition onChange (v : str) (s : state) : state :=
  mkState v (loading s) [] (generatedImage s) (metadata s) (includeAuthor s) (includeDate s).

(** What [fetch('/api/generate', ...)] and [response.json()] give: the
    reply of the handler, or a thrown value. *)
Inductive outcome := Threw (e : thrown) | Answered (r : reply).

(** [response.ok]. *)
Definition response_ok (r : reply) : bool :=
  match r with
  | Error st _ => (200 <=? st) && (st <=? 299)
  | Success _ _ _ _ _ _ => true
  end.

(** [JSON.stringify({ url, includeAuthor, includeDate })]. *)
Definition request_of (s : state) : body :=
  mkBody (Some (url s)) (includeAuthor s) (includeDate s).

(** The inner [try] and its [catch]: a reply that is not ok is thrown as an
    [Error] with [data.error || 'Failed to generate image']; an ok reply
    sets the image and the metadata to what the data holds; a thrown value
    sets the error to its message when it is an [Error]. *)
Definition settle (o : outcome) (s : state) : state :=
  match o with
  | Answered r =>
      if negb (response_ok r)
      then setError
             (match r with
              | Error _ m => or_else m (lit "Failed to generate image")
              | Success _ _ _ _ _ _ => lit "Failed to generate image"
              end) s
      else
        match r with
        | Success c t a d so i =>
            setMetadata (Some (mkArticle t a d so i)) (setGeneratedImage (Some c) s)
        | Error _ _ => setMetadata None (setGeneratedImage None s)
        end
  | Threw (ErrorObject m) => setError m s
  | Threw OtherValue => setError (lit "An unexpected error occurred") s
  end.

(** [handleGenerate]: the state when it has finished, and the requests it
    sent. [new URL(url)] is the one of [w]. *)
Definition handleGenerate (w : world) (api : body -> outcome) (s : state)
    : state * list body :=
  if negb (truthy (trim (url s)))
  then (setError (lit "Please enter a valid URL") s, [])
  else
    match URL_hostname w (url s) with
    | None => (setError (lit "Please enter a valid URL format") s, [])
    | Some _ =>
        let s1 := setMetadata None (setGeneratedImage None (setError [] (setLoading true s))) in
        (setLoading false (settle (api (request_of s)) s1), [request_of s])
    end.

(** [handleDownload]: the [href] of the link that is clicked, if any. *)
Definition handleDownload (s : state) : option card := generatedImage s.

End Home.

(** The page in front of a handler: the request body reaches the handler as
    it was sent, and the reply reaches the page. *)
Definition served (handler : option body -> reply * list event) (b : body) : Home.outcome :=
  Home.Answered (fst (handler (Some b))).

(** The first code unit of a message, 0 when it is empty. *)
Definition first_unit (m : str) : N := hd 0%N m.

(** The page after a card was generated for [sample_url] and the field was
    then changed to [u]. *)
Definition page_with_card (u : str) : Home.state :=
  Home.onChange u
    (fst (Home.handleGenerate world_scenario_D (served (POST world_scenario_D))
            (Home.onChange sample_url Home.initial))).

(** * Properties *)

Example wrap_two_words :
  wrap 25 (lit "Big Story") = [[]; lit "Big Story"].
Proof. reflexivity. Qed.

Example wrap_long_title :
  wrap 25 (lit "Senate passes the annual budget after a long night")
  = [[]; lit "Senate passes the annual"; lit "budget after a long"; lit "night"].
Proof. vm_compute. reflexivity. Qed.

(** ** Title truncation *)

Lemma lit_length (s : string) : length (lit s) = String.length s.
Proof.
  unfold lit. rewrite length_map.
  induction s as [|a s IH]; simpl; [reflexivity | now rewrite IH].
Qed.

(** C9. A title of more than 150 code units is displayed as its first 150
    code units followed by three dots (153 in all); a title of at most 150
    is displayed unchanged. *)
Theorem cleanTitle_truncates (title : str) :
  (150 < length title ->
     cleanTitle title = firstn 150 title ++ lit "..." /\ length (cleanTitle title) = 153)
  /\ (length title <= 150 -> cleanTitle title = title).
Proof.
  unfold cleanTitle, substring0. split; intros H.
  - apply Nat.ltb_lt in H as Hb. rewrite Hb. split; [reflexivity|].
    rewrite length_app, length_firstn, lit_length. simpl String.length. lia.
  - destruct (150 <? length title) eqn:Hb; [|reflexivity].
    apply Nat.ltb_lt in Hb. lia.
Qed.

Lemma cleanTitle_truncates_witness :
  cleanTitle (repeat 65%N 151) = firstn 150 (repeat 65%N 151) ++ lit "..."
  /\ cleanTitle (lit "Big Story") = lit "Big Story".
Proof.
  split.
  - apply (proj1 (cleanTitle_truncates (repeat 65%N 151))).
    rewrite repeat_length. lia.
  - apply (proj2 (cleanTitle_truncates (lit "Big Story"))).
    rewrite lit_length. simpl. lia.
Defined.

(** ** Line-wrap engine *)

Example wrap_empty : wrap 25 [] = [[]; []].
Proof. reflexivity. Qed.

Lemma split_on_nonempty (sep : char) s : split_on sep s <> [].
Proof.
  destruct s as [|c s]; simpl; [discriminate|].
  destruct (N.eqb c sep); [discriminate|].
  destruct (split_on sep s); discriminate.
Qed.

Lemma Forall_removelast {A : Type} (P : A -> Prop) (l : list A) :
  Forall P l -> Forall P (removelast l).
Proof.
  induction 1 as [|x l Hx Hl IH]; simpl; [constructor|].
  destruct l; [constructor|]. constructor; assumption.
Qed.

Section WrapInvariant.

Variable budget : nat.
Variable P : str -> Prop.

(** What a step needs of [P]: a joined line that passed the length test
    has it, and so has every word that is pushed. *)
Hypothesis P_joined : forall l, length l < budget -> P l.

Lemma wrap_step_Forall lines word :
  P word -> Forall P lines -> Forall P (wrap_step budget lines word).
Proof.
  intros Hw Hl. unfold wrap_step, set_last.
  destruct (truthy (last lines []) && _) eqn:E.
  - apply andb_prop in E as [_ E]. apply Nat.ltb_lt in E.
    apply Forall_app. split; [now apply Forall_removelast|].
    constructor; [now apply P_joined | constructor].
  - apply Forall_app. split; [assumption|]. constructor; [assumption|constructor].
Qed.

Lemma fold_wrap_step_Forall words lines :
  Forall P words -> Forall P lines -> Forall P (fold_left (wrap_step budget) words lines).
Proof.
  revert lines. induction words as [|w ws IH]; intros lines Hw Hl; simpl; [assumption|].
  inversion Hw; subst. apply IH; [assumption|]. now apply wrap_step_Forall.
Qed.

End WrapInvariant.

Lemma wrap_lines_bound budget s :
  0 < budget ->
  Forall (fun line => length line < budget
                      \/ (In line (split_on sp s) /\ budget <= length line))
         (wrap budget s).
Proof.
  intros Hb. unfold wrap.
  apply fold_wrap_step_Forall with (budget := budget).
  - intros l Hl. now left.
  - apply Forall_forall. intros w Hw.
    destruct (Nat.lt_ge_cases (length w) budget); [now left | right; now split].
  - constructor; [left; simpl; exact Hb | constructor].
Qed.

(** C1, as the reducer has it. For every input and every positive budget,
    each wrapped line is strictly shorter than the budget, or is a single
    word of the input, unsplit, whose length is at least the budget. *)
Theorem wrap_lines_within_budget (budget : nat) (s : str) :
  0 < budget -> wrap_bound budget s.
Proof.
  intros Hb line Hin.
  pose proof (wrap_lines_bound s Hb) as HF.
  rewrite Forall_forall in HF. now apply HF.
Qed.

Lemma wrap_lines_within_budget_witness :
  0 < 25 /\ wrap_bound 25 (lit "Senate passes the annual budget after a long night").
Proof.
  split; [lia|]. apply wrap_lines_within_budget. lia.
Defined.

(** C1, as worded: a title made of one word of exactly 25 code units is
    wrapped with a budget of 25 into a line of 25 code units, which is
    neither shorter than the budget nor a word exceeding it. *)
Lemma wrap_bound_claimed_fails :
  let title := lit "ABCDEFGHIJKLMNOPQRSTUVWXY" in
  maxCharsPerLine (title_tier (cleanTitle title)) = 25
  /\ titleLines title = [[]; title]
  /\ ~ wrap_bound_claimed 25 (cleanTitle title).
Proof.
  cbv zeta. split; [reflexivity|]. split; [reflexivity|].
  intros H.
  destruct (H (lit "ABCDEFGHIJKLMNOPQRSTUVWXY")) as [Hlt | [_ Hgt]].
  - vm_compute. right. left. reflexivity.
  - vm_compute in Hlt. lia.
  - vm_compute in Hgt. lia.
Qed.

(** The two wraps of the handler: the title with the budget of its tier,
    the author with 60. *)
Corollary titleLines_bound title :
  wrap_bound (maxCharsPerLine (title_tier (cleanTitle title))) (cleanTitle title).
Proof.
  intros line Hin.
  assert (Hb : 0 < maxCharsPerLine (title_tier (cleanTitle title))).
  { unfold title_tier. destruct (80 <? _); [simpl; lia|]. destruct (50 <? _); simpl; lia. }
  pose proof (wrap_lines_bound (cleanTitle title) Hb) as HF.
  rewrite Forall_forall in HF. now apply HF.
Qed.

Corollary authorLines_bound cleanAuthor : wrap_bound maxAuthorCharsPerLine cleanAuthor.
Proof.
  intros line Hin.
  assert (Hb : 0 < maxAuthorCharsPerLine) by (unfold maxAuthorCharsPerLine; lia).
  pose proof (wrap_lines_bound cleanAuthor Hb) as HF.
  rewrite Forall_forall in HF. now apply HF.
Qed.

(** *** The seed line *)

Lemma wrap_step_seed budget rest word :
  rest <> [] ->
  exists rest', wrap_step budget ([] :: rest) word = [] :: rest'
                /\ rest' <> []
                /\ (word <> [] -> Forall (fun l => l <> []) rest ->
                    Forall (fun l => l <> []) rest').
Proof.
  intros Hr. unfold wrap_step, set_last.
  destruct rest as [|r rest]; [congruence|].
  change (last ([] :: r :: rest) []) with (last (r :: rest) (@nil char)).
  change (removelast ([] :: r :: rest)) with ([] :: removelast (r :: rest)).
  destruct (truthy (last (r :: rest) []) && _) eqn:E.
  - exists (removelast (r :: rest) ++ [last (r :: rest) [] ++ [sp] ++ word]).
    split; [reflexivity|]. split.
    + intros H. apply app_eq_nil in H as [_ H]. discriminate.
    + intros _ HF. apply Forall_app. split; [now apply Forall_removelast|].
      constructor; [|constructor].
      intros H. apply app_eq_nil in H as [_ H]. discriminate.
  - exists ((r :: rest) ++ [word]). split; [reflexivity|]. split.
    + discriminate.
    + intros Hw HF. apply Forall_app. split; [assumption|].
      constructor; [assumption | constructor].
Qed.

Lemma fold_wrap_step_seed budget words rest :
  rest <> [] ->
  exists rest', fold_left (wrap_step budget) words ([] :: rest) = [] :: rest'
                /\ rest' <> []
                /\ (Forall (fun w => w <> []) words -> Forall (fun l => l <> []) rest ->
                    Forall (fun l => l <> []) rest').
Proof.
  revert rest. induction words as [|w ws IH]; intros rest Hr; simpl.
  - exists rest. repeat split; auto.
  - destruct (wrap_step_seed budget w Hr) as (r1 & E1 & N1 & F1).
    rewrite E1. destruct (IH r1 N1) as (r2 & E2 & N2 & F2).
    exists r2. split; [assumption|]. split; [assumption|].
    intros HW HF. inversion HW; subst. apply F2; [assumption|]. now apply F1.
Qed.

(** The first word is always pushed: the seed line is falsy. *)
Lemma wrap_first_word budget w ws :
  fold_left (wrap_step budget) (w :: ws) [[]]
  = fold_left (wrap_step budget) ws [[]; w].
Proof. reflexivity. Qed.

Lemma wrap_seed budget s :
  exists rest, wrap budget s = [] :: rest
               /\ rest <> []
               /\ (Forall (fun w => w <> []) (split_on sp s) ->
                   Forall (fun l => l <> []) rest).
Proof.
  unfold wrap. destruct (split_on sp s) as [|w ws] eqn:E.
  - now apply split_on_nonempty in E.
  - rewrite wrap_first_word.
    destruct (@fold_wrap_step_seed budget ws [w]) as (rest & E1 & N1 & F1); [discriminate|].
    exists rest. split; [assumption|]. split; [assumption|].
    intros HW. inversion HW; subst. apply F1; [assumption|].
    constructor; [assumption | constructor].
Qed.

Lemma filter_truthy_all rest :
  Forall (fun l : str => l <> []) rest -> filter truthy rest = rest.
Proof.
  induction 1 as [|l rest Hl _ IH]; simpl; [reflexivity|].
  destruct l; [congruence|]. simpl. now rewrite IH.
Qed.

(** C10, as the reducer has it. The wrapped lines always begin with the
    empty seed line, followed by at least one more line (the first word is
    pushed, it never fills the seed); the line count is therefore at least
    one more than the number of lines with text, and exactly one more when
    no word of the input is empty; the title-block height counts the seed
    line (one line height per line after the seed) and the seed line takes
    the first baseline, the lines after it the following ones. *)
Theorem wrap_starts_with_seed_line (budget : nat) (s : str) (t : tier) (y0 step : Q) :
  exists rest,
    wrap budget s = [] :: rest
    /\ rest <> []
    /\ S (text_lines (wrap budget s)) <= length (wrap budget s)
    /\ (Forall (fun w => w <> []) (split_on sp s) ->
        length (wrap budget s) = S (text_lines (wrap budget s)))
    /\ (titleBlockHeight t (length (wrap budget s))
        == ofnat (length rest) * inject_Z (lineHeight t)
           + inject_Z (titleFontSize t) * (85 # 100))%Q
    /\ place y0 step (wrap budget s)
       = ([], (y0 + ofnat 0 * step)%Q) :: place_from 1 y0 step rest.
Proof.
  destruct (wrap_seed budget s) as (rest & E & N & F).
  exists rest. rewrite E. unfold text_lines. simpl filter. simpl length.
  split; [reflexivity|]. split; [assumption|]. split.
  - pose proof (filter_length_le truthy rest). lia.
  - split.
    + intros HW. now rewrite (filter_truthy_all (F HW)).
    + split; [|reflexivity].
      unfold titleBlockHeight, ofnat. rewrite Nat2Z.inj_succ.
      unfold Z.succ. rewrite inject_Z_plus. change (inject_Z 1) with 1%Q. unfold str. ring.
Qed.

Lemma wrap_starts_with_seed_line_witness :
  length (wrap 25 (lit "Big Story")) = S (text_lines (wrap 25 (lit "Big Story"))).
Proof.
  destruct (wrap_starts_with_seed_line 25 (lit "Big Story") (mkTier 48 58 25) 0 0)
    as (rest & _ & _ & _ & H & _).
  apply H. vm_compute. repeat constructor; discriminate.
Defined.

(** C10, as worded: a title with a leading space gives two empty lines
    before its only line of text, three lines for one line with text. *)
Lemma seed_count_claimed_fails :
  let title := [sp; 97%N] in
  titleLines title = [[]; []; [97%N]]
  /\ ~ seed_count_claimed (maxCharsPerLine (title_tier (cleanTitle title))) (cleanTitle title).
Proof.
  cbv zeta. split; [reflexivity|].
  unfold seed_count_claimed. vm_compute. discriminate.
Qed.

(** ** Layout calculator *)

Example textHeight_two_lines_two_authors :
  textHeight (mkTier 48 58 25) 2 2 true true = 222%Z.
Proof. reflexivity. Qed.

Example textHeight_no_metadata :
  textHeight (mkTier 36 44 35) 4 2 false false = 217%Z.
Proof. reflexivity. Qed.

Lemma Math_round_comp (x y : Q) : (x == y)%Q -> Math_round x = Math_round y.
Proof.
  intros H. unfold Math_round. apply Qfloor_comp. now rewrite H.
Qed.

Lemma Qgtb_comp (x y : Q) : (x == y)%Q -> Qgtb x 0 = Qgtb y 0.
Proof.
  intros H. unfold Qgtb. f_equal.
  destruct (Qle_bool x 0) eqn:Ex, (Qle_bool y 0) eqn:Ey; try reflexivity.
  - apply Qle_bool_iff in Ex. rewrite H in Ex. apply Qle_bool_iff in Ex. congruence.
  - apply Qle_bool_iff in Ey. rewrite <- H in Ey. apply Qle_bool_iff in Ey. congruence.
Qed.

Lemma metadataBlockHeight_spec a ia id :
  (metadataBlockHeight a ia id == spec_metadataBlockHeight a ia id)%Q.
Proof.
  unfold metadataBlockHeight, spec_metadataBlockHeight, metadataLineHeight.
  destruct ia, id; simpl negb; simpl andb; cbv iota; ring.
Qed.

Lemma textHeight_spec t n a ia id :
  textHeight t n a ia id = spec_textBoxHeight t n a ia id.
Proof.
  unfold textHeight, textHeight_exact, spec_textBoxHeight.
  pose proof (metadataBlockHeight_spec a ia id) as Hm.
  rewrite (Qgtb_comp Hm).
  apply Math_round_comp.
  unfold titleBlockHeight, topPadding, separatorSpacing, separatorHeight,
    metadataSpacing, bottomPadding.
  destruct (Qgtb (spec_metadataBlockHeight a ia id) 0); rewrite ?Hm; ring.
Qed.

(** C4. For every title line count, font tier, author line count and pair
    of flags, the text-box height is
    [round(20 + ((n-1) * lineHeight + 0.85 * fontSize) + 12 + 2 + (m > 0 ? 15 + m : 0) + 20)]
    with [m] the author lines at 18 each when the author is included plus 18
    when the date is; with both flags off [m] is 0, the metadata block and
    its spacing add nothing, and neither renderer draws a metadata text. *)
Theorem textHeight_formula (t : tier) (n a : nat) (ia id : bool) :
  textHeight t n a ia id = spec_textBoxHeight t n a ia id
  /\ metadataBlockHeight a false false = 0%Q
  /\ textHeight t n a false false
     = Math_round (20 + ((ofnat n - 1) * inject_Z (lineHeight t)
                         + (85 # 100) * inject_Z (titleFontSize t)) + 12 + 2 + 0 + 20)%Q
  /\ (forall background h titleL authorL cleanSource cleanDate,
        let p := inline_svg background t h titleL authorL false false cleanSource cleanDate in
        let p' := text_to_svg background t h titleL authorL false false cleanSource cleanDate in
        panel_author p = [] /\ panel_source_date p = []
        /\ panel_author p' = [] /\ panel_source_date p' = []).
Proof.
  split; [apply textHeight_spec|]. split; [reflexivity|]. split.
  - rewrite textHeight_spec. reflexivity.
  - intros. repeat split; reflexivity.
Qed.

(** *** The closed form for the three tiers of the handler *)

Lemma Qfloor_between (q : Q) (z : Z) :
  (inject_Z z <= q)%Q -> (q < inject_Z (z + 1))%Q -> Qfloor q = z.
Proof.
  intros H1 H2.
  pose proof (Qfloor_le q) as F1. pose proof (Qlt_floor q) as F2.
  assert (z < Qfloor q + 1)%Z.
  { rewrite Zlt_Qlt. eapply Qle_lt_trans; [exact H1 | exact F2]. }
  assert (Qfloor q < z + 1)%Z.
  { rewrite Zlt_Qlt. eapply Qle_lt_trans; [exact F1 | exact H2]. }
  lia.
Qed.

Lemma Qfloor_plus_fraction (z : Z) (r q : Q) :
  (0 <= r)%Q -> (r < 1)%Q -> (q == inject_Z z + r)%Q -> Qfloor q = z.
Proof.
  intros H0 H1 Hq. apply Qfloor_between; rewrite Hq.
  - rewrite <- (Qplus_0_r (inject_Z z)) at 1. now apply Qplus_le_r.
  - rewrite inject_Z_plus. now apply Qplus_lt_r.
Qed.

Lemma Qgtb_inject_Z (z : Z) : Qgtb (inject_Z z) 0 = (0 <? z)%Z.
Proof.
  unfold Qgtb, Qle_bool. simpl. rewrite Z.mul_1_r.
  destruct (Z.leb_spec z 0), (Z.ltb_spec 0 z); simpl; try reflexivity; lia.
Qed.

Lemma metadata_px_spec a ia id :
  (spec_metadataBlockHeight a ia id == inject_Z (metadata_px a ia id))%Q.
Proof.
  unfold spec_metadataBlockHeight, metadata_px, ofnat.
  destruct ia, id; rewrite ?inject_Z_plus, ?inject_Z_mult; ring.
Qed.

(** The exact height of a tier of the handler is the integer closed form
    less one half, plus one, two or three tenths. *)
Lemma textHeight_exact_split t n a ia id :
  In t [mkTier 36 44 35; mkTier 42 50 30; mkTier 48 58 25] ->
  exists r : Q,
    (1 # 10 <= r)%Q /\ (r <= 3 # 10)%Q
    /\ (textHeight_exact t n a ia id + (1 # 2)
        == inject_Z ((Z.of_nat n - 1) * lineHeight t + tier_base t + metadata_px a ia id
                     + (if 0 <? metadata_px a ia id then 15 else 0)%Z) + r)%Q.
Proof.
  intros Ht. unfold textHeight_exact. cbv zeta.
  pose proof (Qeq_trans _ _ _ (metadataBlockHeight_spec a ia id) (metadata_px_spec a ia id))
    as Hm.
  replace (Qgtb (metadataBlockHeight a ia id) 0) with (0 <? metadata_px a ia id)%Z
    by (rewrite <- Qgtb_inject_Z; symmetry; apply Qgtb_comp, Hm).
  set (px := metadata_px a ia id) in *.
  set (m := metadataBlockHeight a ia id) in *.
  assert (Hgap : ((if (0 <? px)%Z then metadataSpacing + m else 0)
                  == inject_Z (px + (if (0 <? px)%Z then 15 else 0)))%Q).
  { unfold metadataSpacing.
    destruct (Z.ltb_spec 0 px) as [Hpos | Hle]; rewrite inject_Z_plus.
    - rewrite Hm. ring.
    - change (inject_Z 0) with 0%Q.
      assert (Hpx : px = 0%Z).
      { unfold px, metadata_px. unfold px, metadata_px in Hle. destruct ia, id; lia. }
      rewrite Hpx. reflexivity. }
  assert (Hn : (ofnat n - 1 == inject_Z (Z.of_nat n - 1))%Q).
  { unfold ofnat, Z.sub. rewrite inject_Z_plus. reflexivity. }
  set (gap := (if (0 <? px)%Z then metadataSpacing + m else 0)%Q) in *.
  unfold titleBlockHeight, topPadding, separatorSpacing, separatorHeight, bottomPadding.
  simpl in Ht.
  destruct Ht as [<- | [<- | [<- | []]]]; unfold tier_base; simpl lineHeight;
    simpl titleFontSize; cbv iota.
  - exists (1 # 10)%Q. split; [discriminate|]. split; [discriminate|].
    rewrite Hgap, Hn, !inject_Z_plus, !inject_Z_mult. ring.
  - exists (2 # 10)%Q. split; [discriminate|]. split; [discriminate|].
    rewrite Hgap, Hn, !inject_Z_plus, !inject_Z_mult. ring.
  - exists (3 # 10)%Q. split; [discriminate|]. split; [discriminate|].
    rewrite Hgap, Hn, !inject_Z_plus, !inject_Z_mult. ring.
Qed.

(** Rounding is stable: an error of up to one tenth in the computed height,
    far above what double arithmetic adds, rounds to the same integer. *)
Lemma textHeight_rounding_margin t n a ia id (eps : Q) :
  In t [mkTier 36 44 35; mkTier 42 50 30; mkTier 48 58 25] ->
  (- (1 # 10) <= eps)%Q -> (eps <= 1 # 10)%Q ->
  Math_round (textHeight_exact t n a ia id + eps)
  = ((Z.of_nat n - 1) * lineHeight t + tier_base t + metadata_px a ia id
     + (if 0 <? metadata_px a ia id then 15 else 0))%Z.
Proof.
  intros Ht Hlo Hhi.
  destruct (textHeight_exact_split n a ia id Ht) as (r & H1 & H3 & E).
  unfold Math_round. apply Qfloor_plus_fraction with (r := (r + eps)%Q).
  - setoid_replace 0%Q with ((1 # 10) + - (1 # 10))%Q by reflexivity.
    now apply Qplus_le_compat.
  - apply Qle_lt_trans with (y := ((3 # 10) + (1 # 10))%Q); [|reflexivity].
    now apply Qplus_le_compat.
  - setoid_replace (textHeight_exact t n a ia id + eps + (1 # 2))%Q
      with (textHeight_exact t n a ia id + (1 # 2) + eps)%Q by ring.
    rewrite E. ring.
Qed.

Lemma textHeight_closed_form t n a ia id :
  In t [mkTier 36 44 35; mkTier 42 50 30; mkTier 48 58 25] ->
  textHeight t n a ia id
  = ((Z.of_nat n - 1) * lineHeight t + tier_base t + metadata_px a ia id
     + (if 0 <? metadata_px a ia id then 15 else 0))%Z.
Proof.
  intros Ht. rewrite <- (@textHeight_rounding_margin t n a ia id 0 Ht);
    [|discriminate|discriminate].
  unfold textHeight. apply Math_round_comp. ring.
Qed.

(** ** Card renderer: the orientation branch *)

Lemma isHorizontal_iff (w h : Z) : isHorizontal (Some w) (Some h) = true <-> (h < w)%Z.
Proof. unfold isHorizontal. apply Z.ltb_lt. Qed.

Lemma renderer_background (background : str) t textH titleL authorL ia id cleanSource cleanDate :
  panel_background (inline_svg background t textH titleL authorL ia id cleanSource cleanDate)
  = background
  /\ panel_background (text_to_svg background t textH titleL authorL ia id cleanSource cleanDate)
     = background
  /\ panel_height (inline_svg background t textH titleL authorL ia id cleanSource cleanDate)
     = textH
  /\ panel_height (text_to_svg background t textH titleL authorL ia id cleanSource cleanDate)
     = textH.
Proof. repeat split; reflexivity. Qed.

(** C5. With either renderer of the text panel: when the intrinsic width of
    the image exceeds its intrinsic height, the image is resized with
    cover-crop to 800 by (1000 - textHeight) and placed at the top, and the
    panel, on an opaque white background, fills the rest of the card below
    it; otherwise the image is resized with cover-crop to the whole 800 by
    1000 card and the panel, on white at 0.85 opacity, is laid over its
    bottom. *)
Theorem orientation_branch (render : renderer) (w h textH : Z) (t : tier)
    (titleL authorL : list str) (ia id : bool) (cleanSource cleanDate : str) :
  render = inline_svg \/ render = text_to_svg ->
  let c := compose_card
             (fun background =>
                render background t textH titleL authorL ia id cleanSource cleanDate)
             textH (Some w) (Some h) in
  ((h < w)%Z ->
     resize_width c = 800%Z /\ resize_height c = (1000 - textH)%Z /\ resize_fit c = Cover
     /\ image_top c = 0%Z
     /\ panel_background (text_panel c) = lit "#FFFFFF"
     /\ text_top c = resize_height c
     /\ (resize_height c + panel_height (text_panel c) = 1000)%Z)
  /\ ((w <= h)%Z ->
     resize_width c = 800%Z /\ resize_height c = 1000%Z /\ resize_fit c = Cover
     /\ image_top c = 0%Z
     /\ panel_background (text_panel c) = lit "rgba(255, 255, 255, 0.85)"
     /\ (text_top c + panel_height (text_panel c) = 1000)%Z).
Proof.
  intros Hr c. subst c. unfold compose_card.
  split; intros Hwh.
  - apply isHorizontal_iff in Hwh. rewrite Hwh.
    destruct Hr as [-> | ->]; cbn -[Z.sub Z.add];
      repeat split; try reflexivity; unfold totalHeight; lia.
  - assert (E : isHorizontal (Some w) (Some h) = false).
    { unfold isHorizontal. apply Z.ltb_ge. assumption. }
    rewrite E.
    destruct Hr as [-> | ->]; cbn -[Z.sub Z.add];
      repeat split; try reflexivity; unfold totalHeight; lia.
Qed.

Lemma orientation_branch_witness :
  let horizontal := compose_card
         (fun background =>
            text_to_svg background (mkTier 48 58 25) 222%Z [[]; lit "Big Story"]
              [[]; lit "JANE DOE"] true true (lit "DAILY NEWS") (lit "JANUARY 5, 2024"))
         222%Z (Some 1200%Z) (Some 600%Z) in
  let square := compose_card
         (fun background =>
            inline_svg background (mkTier 48 58 25) 222%Z [[]; lit "Big Story"]
              [[]; lit "JANE DOE"] true true (lit "DAILY NEWS") (lit "JANUARY 5, 2024"))
         222%Z (Some 600%Z) (Some 600%Z) in
  (resize_height horizontal = 778%Z
   /\ panel_background (text_panel horizontal) = lit "#FFFFFF")
  /\ (resize_height square = 1000%Z
      /\ panel_background (text_panel square) = lit "rgba(255, 255, 255, 0.85)").
Proof.
  cbv zeta. split.
  - destruct (proj1 (@orientation_branch text_to_svg 1200%Z 600%Z 222%Z (mkTier 48 58 25)
                       [[]; lit "Big Story"] [[]; lit "JANE DOE"] true true
                       (lit "DAILY NEWS") (lit "JANUARY 5, 2024") (or_intror eq_refl)))
      as (_ & H2 & _ & _ & H5 & _); [lia|].
    split; [exact H2 | exact H5].
  - destruct (proj2 (@orientation_branch inline_svg 600%Z 600%Z 222%Z (mkTier 48 58 25)
                       [[]; lit "Big Story"] [[]; lit "JANE DOE"] true true
                       (lit "DAILY NEWS") (lit "JANUARY 5, 2024") (or_introl eq_refl)))
      as (_ & H2 & _ & _ & H5 & _); [lia|].
    split; [exact H2 | exact H5].
Defined.

(** Absent dimensions count as 0: an image without a reported width is
    never horizontal. *)
Lemma isHorizontal_no_width h : (0 <= h)%Z -> isHorizontal None (Some h) = false.
Proof. intros H. unfold isHorizontal. apply Z.ltb_ge. assumption. Qed.


(** ** Date formatting *)

Example formattedDate_iso :
  formattedDate sample_Date_parse (mkDate 2026 November 2) (JStr (lit "2024-01-05"))
  = lit "January 5, 2024".
Proof. vm_compute. reflexivity. Qed.

Example formattedDate_empty :
  formattedDate sample_Date_parse (mkDate 2026 November 2) (JStr [])
  = lit "Nov-02-2026".
Proof. vm_compute. reflexivity. Qed.

(** A string that does not parse is not replaced by the current date:
    [toLocaleDateString] of an invalid date does not throw. *)
Example formattedDate_unparseable :
  formattedDate sample_Date_parse (mkDate 2026 November 2) (JStr (lit "last Tuesday"))
  = lit "Invalid Date".
Proof. vm_compute. reflexivity. Qed.

Lemma dashed_app a b : dashed (a ++ b) = dashed a ++ dashed b.
Proof. unfold dashed. now rewrite filter_app, map_app. Qed.

Lemma dashed_plain s :
  forallb (fun c => negb (N.eqb c comma) && negb (N.eqb c sp)) s = true -> dashed s = s.
Proof.
  unfold dashed. induction s as [|c s IH]; simpl; [reflexivity|].
  intros H. apply andb_prop in H as [Hc Hs]. apply andb_prop in Hc as [H1 H2].
  rewrite H1. simpl. apply negb_true_iff in H2. rewrite H2. f_equal. now apply IH.
Qed.

Lemma digits_plain s :
  forallb is_digit s = true ->
  forallb (fun c => negb (N.eqb c comma) && negb (N.eqb c sp)) s = true.
Proof.
  induction s as [|c s IH]; simpl; [reflexivity|].
  intros H. apply andb_prop in H as [Hc Hs]. rewrite (IH Hs), andb_true_r.
  unfold is_digit in Hc. apply andb_prop in Hc as [H1 H2].
  apply N.leb_le in H1, H2. unfold comma, sp.
  destruct (N.eqb_spec c 44), (N.eqb_spec c 32); simpl; try reflexivity; lia.
Qed.

Lemma uint_digits (u : Decimal.uint) : forallb is_digit (lit (NilEmpty.string_of_uint u)) = true.
Proof. induction u; simpl; try reflexivity; assumption. Qed.

Lemma dec_digits n : forallb is_digit (dec n) = true.
Proof.
  unfold dec, NilZero.string_of_uint.
  destruct (Nat.to_uint n) eqn:E; try (rewrite <- E; apply uint_digits).
  reflexivity.
Qed.

Lemma dec2_digits n : forallb is_digit (dec2 n) = true.
Proof.
  unfold dec2. destruct (n <? 10); [|apply dec_digits].
  simpl. apply dec_digits.
Qed.

Lemma dashed_format_short d :
  dashed (format_short d)
  = month_short (date_month d) ++ lit "-" ++ dec2 (date_day d) ++ lit "-" ++ dec (date_year d).
Proof.
  unfold format_short. rewrite !dashed_app.
  rewrite (dashed_plain (dec2 (date_day d))) by apply digits_plain, dec2_digits.
  rewrite (dashed_plain (dec (date_year d))) by apply digits_plain, dec_digits.
  destruct (date_month d); reflexivity.
Qed.

(** C3, as the handler has it. A non-empty date string that parses is
    formatted as "Month Day, Year" with the long month name; an empty
    string, or an exception while formatting, gives the current date as
    "Mon-DD-YYYY": short month name, two-digit day and year joined by
    dashes. *)
Theorem formattedDate_cases (Date_parse : json -> date_result) (today : civil_date)
    (raw : str) :
  (forall d, raw <> [] -> Date_parse (JStr raw) = DateOk d ->
     formattedDate Date_parse today (JStr raw)
     = month_long (date_month d) ++ lit " " ++ dec (date_day d) ++ lit ", "
       ++ dec (date_year d))
  /\ (raw = [] \/ Date_parse (JStr raw) = DateThrows ->
      formattedDate Date_parse today (JStr raw)
      = month_short (date_month today) ++ lit "-" ++ dec2 (date_day today) ++ lit "-"
        ++ dec (date_year today)).
Proof.
  unfold formattedDate, today_dashed. split.
  - intros d Hne Hp. destruct raw; [congruence|]. simpl truthy_json. cbv iota.
    rewrite Hp. reflexivity.
  - intros [-> | Hp].
    + simpl. apply dashed_format_short.
    + rewrite Hp. destruct (truthy_json (JStr raw)); apply dashed_format_short.
Qed.

Lemma formattedDate_cases_witness :
  formattedDate sample_Date_parse (mkDate 2026 November 2) (JStr (lit "2024-01-05"))
  = lit "January 5, 2024"
  /\ formattedDate sample_Date_parse (mkDate 2026 November 2) (JStr [])
     = lit "Nov-02-2026".
Proof.
  split.
  - apply (proj1 (formattedDate_cases sample_Date_parse (mkDate 2026 November 2)
                    (lit "2024-01-05")) (mkDate 2024 January 5)).
    + discriminate.
    + reflexivity.
  - apply (proj2 (formattedDate_cases sample_Date_parse (mkDate 2026 November 2) [])).
    left. reflexivity.
Defined.

(** C3, as worded: for an empty date the handler does not return the
    current date in the "Month Day, Year" form. *)
Lemma formattedDate_claimed_fails :
  formattedDate sample_Date_parse (mkDate 2026 November 2) (JStr [])
  <> spec_formattedDate sample_Date_parse (mkDate 2026 November 2) [].
Proof. vm_compute. discriminate. Qed.

(** ** The article:author heuristic *)

Example profile_names_scenario_D :
  profile_names (lit "https://site.com/profile/john-smith, https://site.com/profile/jane-doe")
  = lit "John Smith, Jane Doe".
Proof. vm_compute. reflexivity. Qed.

(** What follows the first [profile/] is taken whole, further segments
    included. *)
Example profile_name_two_segments :
  profile_name (lit "https://site.com/profile/staff/john-smith") = lit "Staff/John Smith".
Proof. vm_compute. reflexivity. Qed.










(** [profile/] has no border: an occurrence cannot start in a base that
    does not contain it and end in the [profile/] that follows. *)
Lemma starts_with_profile_straddle base rest :
  base <> [] ->
  includes (lit "profile/") base = false ->
  starts_with (lit "profile/") (base ++ lit "profile/" ++ rest) = false.
Proof.
  intros Hne Hinc.
  destruct base as [|c1 [|c2 [|c3 [|c4 [|c5 [|c6 [|c7 [|c8 base]]]]]]]];
    try congruence;
    try (cbn; rewrite ?andb_false_r; reflexivity).
  simpl in Hinc. apply orb_false_elim in Hinc as [Hs _].
  cbn in Hs |- *. rewrite andb_true_r in *. exact Hs.
Qed.

Lemma match_profile_eq s :
  match_profile s
  = if starts_with (lit "profile/") s && dot_plus_to_end (skipn 8 s)
    then Some (skipn 8 s)
    else match s with
         | [] => None
         | _ :: s' => match_profile s'
         end.
Proof. destruct s; reflexivity. Qed.

Lemma match_profile_base base name :
  includes (lit "profile/") base = false ->
  dot_plus_to_end name = true ->
  match_profile (base ++ lit "profile/" ++ name) = Some name.
Proof.
  intros Hinc Hdot. induction base as [|c base IH]; rewrite match_profile_eq.
  - change (skipn 8 ([] ++ lit "profile/" ++ name)) with name.
    replace (starts_with (lit "profile/") ([] ++ lit "profile/" ++ name)) with true
      by reflexivity.
    rewrite Hdot. reflexivity.
  - rewrite starts_with_profile_straddle; [|discriminate|assumption].
    simpl. apply IH.
    simpl in Hinc. now apply orb_false_elim in Hinc as [_ ?].
Qed.




(** *** Substrings *)





Lemma drop_while_suffix f s : exists a, s = a ++ drop_while f s.
Proof.
  induction s as [|c s (a & IH)]; simpl; [now exists []|].
  destruct (f c); [|now exists []].
  exists (c :: a). simpl. now rewrite <- IH.
Qed.

Lemma trim_infix s : exists a b, s = a ++ trim s ++ b.
Proof.
  unfold trim, trim_end, trim_start.
  destruct (drop_while_suffix is_space s) as (a & Ha).
  destruct (drop_while_suffix is_space (rev (drop_while is_space s))) as (b & Hb).
  exists a, (rev b).
  rewrite <- rev_app_distr, <- Hb, rev_involutive. exact Ha.
Qed.














(** ** Field resolver: first writer wins *)

Example resolve_two_scripts :
  resolve_fields two_scripts (Some (lit "example.com"))
  = mkFields (JStr (lit "Jane Doe")) (JStr (lit "Daily News")) (JStr (lit "2024-01-05")).
Proof. vm_compute. reflexivity. Qed.

Lemma keeps_refl f : keeps f f.
Proof. repeat split; reflexivity. Qed.

Lemma keeps_trans f g h : keeps f g -> keeps g h -> keeps f h.
Proof.
  intros (A1 & S1 & D1) (A2 & S2 & D2). repeat split; intros H.
  - rewrite <- (A1 H). apply A2. now rewrite (A1 H).
  - rewrite <- (S1 H). apply S2. now rewrite (S1 H).
  - rewrite <- (D1 H). apply D2. now rewrite (D1 H).
Qed.

Lemma keeps_set_author v f : truthy_json (author f) = false -> keeps f (set_author v f).
Proof. intros H. repeat split; try reflexivity. intros H'. congruence. Qed.

Lemma keeps_set_source v f : truthy_json (source f) = false -> keeps f (set_source v f).
Proof. intros H. repeat split; try reflexivity. intros H'. congruence. Qed.

Lemma keeps_set_date v f : truthy_json (date f) = false -> keeps f (set_date v f).
Proof. intros H. repeat split; try reflexivity. intros H'. congruence. Qed.

Create HintDb keeps.
#[local] Hint Resolve keeps_refl keeps_set_author keeps_set_source keeps_set_date : keeps.

Ltac keeps_cases :=
  repeat match goal with
    | |- context [match ?x with _ => _ end] => destruct x eqn:?
    | H : Some _ = Some _ |- _ => injection H as <-
    | H : None = Some _ |- _ => discriminate H
    end; auto with keeps.

Lemma extract_author_keeps data f f' : extract_author data f = Some f' -> keeps f f'.
Proof. unfold extract_author. intros H. revert H. keeps_cases; intros H; keeps_cases. Qed.

Lemma extract_source_keeps data f f' : extract_source data f = Some f' -> keeps f f'.
Proof. unfold extract_source. intros H. revert H. keeps_cases; intros H; keeps_cases. Qed.

Lemma extract_date_keeps data f f' : extract_date data f = Some f' -> keeps f f'.
Proof. unfold extract_date. intros H. revert H. keeps_cases; intros H; keeps_cases. Qed.

Lemma scan_object_keeps data f : keeps f (snd (scan_object data f)).
Proof.
  unfold scan_object.
  destruct (extract_author data f) as [f1|] eqn:E1; [|apply keeps_refl].
  apply extract_author_keeps in E1.
  destruct (extract_source data f1) as [f2|] eqn:E2; [|exact E1].
  apply extract_source_keeps in E2.
  destruct (extract_date data f2) as [f3|] eqn:E3; [|exact (keeps_trans E1 E2)].
  apply extract_date_keeps in E3.
  destruct (_ && _); simpl; exact (keeps_trans (keeps_trans E1 E2) E3).
Qed.

Lemma scan_objects_keeps dataArray f : keeps f (scan_objects dataArray f).
Proof.
  revert f. induction dataArray as [|data rest IH]; intros f; simpl; [apply keeps_refl|].
  pose proof (scan_object_keeps data f) as H.
  destruct (scan_object data f) as [[ | | ] f']; simpl in H; try exact H.
  exact (keeps_trans H (IH f')).
Qed.

Lemma scan_script_keeps script f : keeps f (scan_script script f).
Proof.
  unfold scan_script. destruct script as [parsed|]; [|apply keeps_refl].
  apply scan_objects_keeps.
Qed.

Lemma fallback_author_keeps doc f : keeps f (fallback_author doc f).
Proof. unfold fallback_author. keeps_cases. Qed.

Lemma fallback_date_keeps doc f : keeps f (fallback_date doc f).
Proof. unfold fallback_date. keeps_cases. Qed.

Lemma fallback_source_keeps doc f : keeps f (fallback_source doc f).
Proof. unfold fallback_source. keeps_cases. Qed.

Lemma fallback_hostname_keeps hostname f : keeps f (fallback_hostname hostname f).
Proof. unfold fallback_hostname. keeps_cases. Qed.

Lemma fallback_unknown_author_keeps f : keeps f (fallback_unknown_author f).
Proof. unfold fallback_unknown_author. keeps_cases. Qed.

Lemma tiers_keep doc hostname t :
  In t (tiers doc hostname) -> forall f, keeps f (t f).
Proof.
  unfold tiers. intros H f. apply in_app_or in H as [H | H].
  - apply in_map_iff in H as (script & <- & _). apply scan_script_keeps.
  - simpl in H.
    destruct H as [<- | [<- | [<- | [<- | [<- | []]]]]];
      auto using fallback_author_keeps, fallback_date_keeps, fallback_source_keeps,
        fallback_hostname_keeps, fallback_unknown_author_keeps.
Qed.

Lemma run_tiers_keeps ts f :
  (forall t, In t ts -> forall g, keeps g (t g)) -> keeps f (run_tiers ts f).
Proof.
  unfold run_tiers. revert f. induction ts as [|t ts IH]; intros f H; simpl.
  - apply keeps_refl.
  - eapply keeps_trans; [apply H; now left|].
    apply IH. intros t' Ht'. apply H. now right.
Qed.

Lemma run_tiers_app ts1 ts2 f : run_tiers (ts1 ++ ts2) f = run_tiers ts2 (run_tiers ts1 f).
Proof. unfold run_tiers. apply fold_left_app. Qed.

Lemma scan_scripts_tiers scripts f :
  run_tiers (map scan_script scripts) f = scan_scripts scripts f.
Proof.
  unfold run_tiers, scan_scripts. revert f.
  induction scripts as [|s scripts IH]; intros f; simpl; [reflexivity | apply IH].
Qed.

(** The handler runs the tiers in cascade order. *)
Lemma resolve_fields_tiers doc hostname :
  resolve_fields doc hostname = run_tiers (tiers doc hostname) initial_fields.
Proof.
  unfold tiers. rewrite run_tiers_app, scan_scripts_tiers. reflexivity.
Qed.

(** C2. At every point of the cascade (after any number of JSON-LD scripts
    and fallback tiers), a field among author, source and date that is
    non-empty is left as it is by the next tier and by all the later ones:
    the resolved value is the value of the first tier that made the field
    non-empty. *)
Theorem first_writer_wins (doc : document) (hostname : option str)
    (earlier later : list (fields -> fields)) (t : fields -> fields) :
  tiers doc hostname = earlier ++ t :: later ->
  let before := run_tiers earlier initial_fields in
  let after := t before in
  let resolved := resolve_fields doc hostname in
  keeps before after
  /\ (truthy_json (author after) = true -> author resolved = author after)
  /\ (truthy_json (source after) = true -> source resolved = source after)
  /\ (truthy_json (date after) = true -> date resolved = date after).
Proof.
  intros Hsplit before after resolved.
  assert (Hin : forall t', In t' (t :: later) -> forall g, keeps g (t' g)).
  { intros t' Ht'. apply (@tiers_keep doc hostname). rewrite Hsplit.
    apply in_or_app. now right. }
  split; [apply Hin; now left|].
  assert (Hres : resolved = run_tiers later after).
  { unfold resolved. rewrite resolve_fields_tiers, Hsplit, run_tiers_app. reflexivity. }
  rewrite Hres.
  apply run_tiers_keeps. intros t' Ht'. apply Hin. now right.
Qed.

Lemma first_writer_wins_witness :
  author (resolve_fields two_scripts (Some (lit "example.com"))) = JStr (lit "Jane Doe").
Proof.
  destruct (@first_writer_wins two_scripts (Some (lit "example.com")) []
              (skipn 1 (tiers two_scripts (Some (lit "example.com"))))
              (scan_script (Some (JObj [(lit "author", JObj [(lit "name", JStr (lit "Jane Doe"))])]))))
    as (_ & H & _).
  - reflexivity.
  - apply H. reflexivity.
Defined.

(** Once the three fields are non-empty a JSON-LD script changes nothing. *)
Lemma scan_script_all_set script f :
  truthy_json (author f) = true -> truthy_json (source f) = true ->
  truthy_json (date f) = true -> scan_script script f = f.
Proof.
  intros Ha Hs Hd. destruct script as [parsed|]; [|reflexivity].
  unfold scan_script.
  destruct (match parsed with JArr items => items | _ => [parsed] end) as [|data rest];
    [reflexivity|].
  simpl. unfold scan_object, extract_author, extract_source, extract_date.
  rewrite Ha. cbv beta iota. rewrite Hs. cbv beta iota. rewrite Hd. cbv beta iota.
  rewrite Ha, Hs, Hd. reflexivity.
Qed.

(** ** The fetch shim *)

(** A 503, then a network failure, then the page: three fetches, with
    back-offs of one and two seconds. *)
Example retry_then_success :
  let w := sample_world
             (fun attempt =>
                match attempt with
                | 0 => Responded (mkResponse 503 (lit "Service Unavailable") None)
                | 1 => Rejected (ErrorObject (lit "fetch failed"))
                | _ => Responded (mkResponse 200 (lit "OK") (Some scenario_B))
                end) ImageFailed in
  POST w (Some sample_request)
  = (no_image,
     [FetchPage (lit "https://news.example.com/a"); Sleep 1000;
      FetchPage (lit "https://news.example.com/a"); Sleep 2000;
      FetchPage (lit "https://news.example.com/a")]).
Proof. vm_compute. reflexivity. Qed.

(** A 5xx answer followed by network failures: the first answer is what the
    handler reports. *)
Example server_error_then_failures :
  let w := sample_world
             (fun attempt =>
                match attempt with
                | 0 => Responded (mkResponse 502 (lit "Bad Gateway") None)
                | _ => Rejected (ErrorObject (lit "fetch failed"))
                end) ImageFailed in
  fst (POST w (Some sample_request)) = Error 502 (lit "Failed to fetch article: 502 Bad Gateway").
Proof. vm_compute. reflexivity. Qed.

Lemma final_answer_test r :
  final_answer r -> ok r || (400 <=? status r) && (status r <? 500) = true.
Proof.
  intros [H | [H1 H2]]; [now rewrite H|].
  apply Nat.leb_le in H1. apply Nat.ltb_lt in H2. rewrite H1, H2. apply orb_true_r.
Qed.

Lemma run_attempts_cons w u attempt rest st :
  run_attempts w u (attempt :: rest) st
  = let log := events st ++ [FetchPage u] in
    match fetch_page w attempt with
    | Responded r =>
        if ok r || (400 <=? status r) && (status r <? 500)
        then mkFetchState (Some r) (lastError st) log
        else if (500 <=? status r) && (attempt <? maxRetries - 1)
             then run_attempts w u rest
                    (mkFetchState (Some r) (lastError st) (log ++ [Sleep (backoffMs attempt)]))
             else mkFetchState (Some r) (lastError st) log
    | Rejected e =>
        if attempt <? maxRetries - 1
        then run_attempts w u rest
               (mkFetchState (htmlResponse st) (Some e) (log ++ [Sleep (backoffMs attempt)]))
        else run_attempts w u rest (mkFetchState (htmlResponse st) (Some e) log)
    end.
Proof. reflexivity. Qed.

Lemma run_attempts_stop w u attempt rest st r :
  fetch_page w attempt = Responded r -> final_answer r ->
  run_attempts w u (attempt :: rest) st
  = mkFetchState (Some r) (lastError st) (events st ++ [FetchPage u]).
Proof.
  intros Hf Hr. rewrite run_attempts_cons. cbv zeta.
  rewrite Hf, (final_answer_test Hr). reflexivity.
Qed.

Lemma run_attempts_retry w u attempt rest st :
  retryable w attempt -> attempt < maxRetries - 1 ->
  exists st',
    run_attempts w u (attempt :: rest) st = run_attempts w u rest st'
    /\ events st' = events st ++ [FetchPage u; Sleep (2 ^ attempt * 1000)].
Proof.
  unfold retryable. intros Hr Ha. apply Nat.ltb_lt in Ha.
  rewrite run_attempts_cons. cbv zeta.
  destruct (fetch_page w attempt) as [r | e].
  - assert (Hok : ok r || (400 <=? status r) && (status r <? 500) = false).
    { unfold ok. apply orb_false_intro.
      - apply andb_false_intro2. apply Nat.leb_gt. lia.
      - apply andb_false_intro2. apply Nat.ltb_ge. lia. }
    rewrite Hok. apply Nat.leb_le in Hr. rewrite Hr, Ha. simpl andb. cbv iota.
    eexists. split; [reflexivity|]. unfold backoffMs. simpl events.
    now rewrite <- app_assoc.
  - rewrite Ha. eexists. split; [reflexivity|]. unfold backoffMs. simpl events.
    now rewrite <- app_assoc.
Qed.

Lemma run_attempts_retried w u k : forall a n st,
  (forall j, a <= j < a + k -> retryable w j) ->
  a + k <= maxRetries - 1 -> k <= n ->
  exists st',
    run_attempts w u (seq a n) st = run_attempts w u (seq (a + k) (n - k)) st'
    /\ events st'
       = events st
         ++ flat_map (fun attempt => [FetchPage u; Sleep (2 ^ attempt * 1000)]) (seq a k).
Proof.
  induction k as [|k IH]; intros a n st Hr Ha Hn.
  - exists st. rewrite Nat.add_0_r, Nat.sub_0_r, app_nil_r. split; reflexivity.
  - destruct n as [|n]; [lia|]. simpl seq.
    destruct (@run_attempts_retry w u a (seq (S a) n) st) as (st1 & E1 & L1).
    { apply Hr. lia. }
    { lia. }
    destruct (IH (S a) n st1) as (st2 & E2 & L2).
    { intros j Hj. apply Hr. lia. }
    { lia. }
    { lia. }
    exists st2. split.
    + rewrite E1, E2. replace (S a + k) with (a + S k) by lia. reflexivity.
    + rewrite L2, L1, <- app_assoc. reflexivity.
Qed.

Lemma run_attempts_log w u attempts : forall st,
  exists more, events (run_attempts w u attempts st) = events st ++ more
               /\ fetches more <= length attempts
               /\ forallb (fun e => negb (is_fetch_image e)) more = true
               /\ (attempts <> [] -> exists tl, more = FetchPage u :: tl).
Proof.
  induction attempts as [|a rest IH]; intros st.
  - exists []. rewrite app_nil_r. repeat split; auto. congruence.
  - rewrite run_attempts_cons. cbv zeta.
    assert (Hstep : forall st1 extra,
               events st1 = events st ++ FetchPage u :: extra ->
               fetches extra = 0 ->
               forallb (fun e => negb (is_fetch_image e)) extra = true ->
               exists more,
                 events (run_attempts w u rest st1) = events st ++ more
                 /\ fetches more <= length (a :: rest)
                 /\ forallb (fun e => negb (is_fetch_image e)) more = true
                 /\ (a :: rest <> [] -> exists tl, more = FetchPage u :: tl)).
    { intros st1 extra E1 F1 I1. destruct (IH st1) as (more & E & F & I & _).
      exists (FetchPage u :: extra ++ more). rewrite E, E1, <- app_assoc. simpl.
      split; [reflexivity|]. split.
      - unfold fetches in *. simpl. rewrite filter_app, length_app. lia.
      - split; [|intros _; eexists; reflexivity].
        rewrite forallb_app, I1, I. reflexivity. }
    assert (Hend : forall r le,
               exists more,
                 events (mkFetchState r le (events st ++ [FetchPage u])) = events st ++ more
                 /\ fetches more <= length (a :: rest)
                 /\ forallb (fun e => negb (is_fetch_image e)) more = true
                 /\ (a :: rest <> [] -> exists tl, more = FetchPage u :: tl)).
    { intros r le. exists [FetchPage u]. simpl. repeat split; auto.
      - unfold fetches. simpl. lia.
      - intros _. eexists. reflexivity. }
    destruct (fetch_page w a) as [r | e].
    + destruct (ok r || _); [apply Hend|].
      destruct ((500 <=? status r) && _); [|apply Hend].
      apply (Hstep _ [Sleep (backoffMs a)]); simpl; [now rewrite <- app_assoc | reflexivity..].
    + destruct (a <? maxRetries - 1).
      * apply (Hstep _ [Sleep (backoffMs a)]); simpl; [now rewrite <- app_assoc | reflexivity..].
      * apply (Hstep _ []); simpl; reflexivity.
Qed.

Lemma retried_succ u k :
  retried u (S k) = retried u k ++ [FetchPage u; Sleep (2 ^ k * 1000)].
Proof.
  unfold retried. rewrite seq_S, flat_map_app. simpl. reflexivity.
Qed.

(** C7. The shim fetches the page at most 3 times. An attempt answered with
    a 2xx or 4xx status, reached after retried attempts only, is the last
    one. An attempt answered with a 5xx status or failed at the network
    level, when attempts remain (the first or the second), is followed by a
    wait of 2^attempt seconds and another fetch. When the three attempts
    all fail at the network level the reply is a 500 whose message carries
    the reason of the last failure. *)
Theorem fetch_shim_retries (w : world) (u : str) :
  let st := fetch_with_retry w u in
  fetches (events st) <= 3
  /\ (forall k r, k < 3 -> (forall j, j < k -> retryable w j) ->
        fetch_page w k = Responded r -> final_answer r ->
        events st = retried u k ++ [FetchPage u] /\ htmlResponse st = Some r)
  /\ (forall k, k < 2 -> (forall j, j <= k -> retryable w j) ->
        exists rest,
          events st
          = retried u k ++ [FetchPage u; Sleep (2 ^ k * 1000); FetchPage u] ++ rest)
  /\ (forall e0 e1 e2 b hostname,
        fetch_page w 0 = Rejected e0 -> fetch_page w 1 = Rejected e1 ->
        fetch_page w 2 = Rejected e2 ->
        url b = Some u -> truthy u = true -> URL_hostname w u = Some hostname ->
        POST w (Some b)
        = (Error 500 (lit "Failed to fetch article: " ++ failure_reason (Some e2)),
           [FetchPage u; Sleep 1000; FetchPage u; Sleep 2000; FetchPage u])
        /\ forall m, e2 = ErrorObject m ->
             fst (POST w (Some b)) = Error 500 (lit "Failed to fetch article: " ++ m)).
Proof.
  intros st. subst st. unfold fetch_with_retry. split; [|split; [|split]].
  - destruct (run_attempts_log w u (seq 0 maxRetries) (mkFetchState None None []))
      as (more & E & F & _).
    rewrite E. simpl app. rewrite length_seq in F. exact F.
  - intros k r Hk Hretry Hf Hfinal.
    destruct (@run_attempts_retried w u k 0 maxRetries (mkFetchState None None []))
      as (st' & E & L).
    { intros j Hj. apply Hretry. lia. }
    { unfold maxRetries. lia. }
    { unfold maxRetries. lia. }
    rewrite E. simpl Nat.add.
    assert (Hseq : seq k (maxRetries - k) = k :: seq (S k) (maxRetries - S k)).
    { unfold maxRetries. destruct k as [|[|[|k]]]; try reflexivity. lia. }
    rewrite Hseq. erewrite run_attempts_stop; [|exact Hf|exact Hfinal].
    simpl. rewrite L. split; reflexivity.
  - intros k Hk Hretry.
    destruct (@run_attempts_retried w u (S k) 0 maxRetries (mkFetchState None None []))
      as (st' & E & L).
    { intros j Hj. apply Hretry. lia. }
    { unfold maxRetries. lia. }
    { unfold maxRetries. lia. }
    rewrite E. simpl Nat.add.
    destruct (run_attempts_log w u (seq (S k) (maxRetries - S k)) st')
      as (more & E' & _ & _ & Hhd).
    destruct Hhd as (tl & ->).
    { unfold maxRetries. destruct k as [|[|k]]; try discriminate. lia. }
    exists tl. change (events st' = retried u (S k)) in L.
    rewrite E', L, retried_succ, <- app_assoc. reflexivity.
  - intros e0 e1 e2 b hostname H0 H1 H2 Hu Ht Hh.
    assert (HP : POST w (Some b)
                 = (Error 500 (lit "Failed to fetch article: " ++ failure_reason (Some e2)),
                    [FetchPage u; Sleep 1000; FetchPage u; Sleep 2000; FetchPage u])).
    { unfold POST. rewrite Hu, Ht, Hh. simpl negb. cbv iota.
      unfold fetch_with_retry. simpl seq.
      rewrite run_attempts_cons. cbv zeta. rewrite H0. simpl Nat.ltb. cbv iota.
      rewrite run_attempts_cons. cbv zeta. rewrite H1. simpl Nat.ltb. cbv iota.
      rewrite run_attempts_cons. cbv zeta. rewrite H2. reflexivity. }
    split; [exact HP|]. intros m ->. rewrite HP. reflexivity.
Qed.

Lemma fetch_shim_retries_witness :
  let w := sample_world
             (fun attempt =>
                match attempt with
                | 0 => Responded (mkResponse 503 (lit "Service Unavailable") None)
                | 1 => Rejected (ErrorObject (lit "fetch failed"))
                | _ => Responded (mkResponse 404 (lit "Not Found") None)
                end) ImageFailed in
  events (fetch_with_retry w (lit "https://news.example.com/a"))
  = retried (lit "https://news.example.com/a") 2 ++ [FetchPage (lit "https://news.example.com/a")]
  /\ htmlResponse (fetch_with_retry w (lit "https://news.example.com/a"))
     = Some (mkResponse 404 (lit "Not Found") None).
Proof.
  cbv zeta.
  apply (proj1 (proj2 (fetch_shim_retries _ (lit "https://news.example.com/a"))) 2
           (mkResponse 404 (lit "Not Found") None)).
  - lia.
  - intros j Hj. destruct j as [|[|j]]; [unfold retryable; simpl; lia | exact I | lia].
  - reflexivity.
  - right. simpl. lia.
Defined.

(** The three attempts failing at the network level. *)
Example all_attempts_fail :
  let w := sample_world (fun _ => Rejected (ErrorObject (lit "getaddrinfo ENOTFOUND")))
             ImageFailed in
  POST w (Some sample_request)
  = (Error 500 (lit "Failed to fetch article: getaddrinfo ENOTFOUND"),
     [FetchPage (lit "https://news.example.com/a"); Sleep 1000;
      FetchPage (lit "https://news.example.com/a"); Sleep 2000;
      FetchPage (lit "https://news.example.com/a")]).
Proof. vm_compute. reflexivity. Qed.

(** ** No image, no card *)

Lemma extract_imageUrl_empty doc :
  no_content (og_image doc) -> no_content (twitter_image doc) ->
  no_content (og_image_url doc) -> extract_imageUrl doc = [].
Proof.
  unfold extract_imageUrl. intros [-> | ->] [-> | ->] [-> | ->]; reflexivity.
Qed.

Lemma generate_no_image w render b doc f log :
  extract_imageUrl doc = [] -> generate w render b doc f log = (no_image, log).
Proof. intros H. unfold generate. rewrite H. reflexivity. Qed.

Lemma fetch_with_retry_no_image_fetch w u :
  forallb (fun e => negb (is_fetch_image e)) (events (fetch_with_retry w u)) = true.
Proof.
  unfold fetch_with_retry.
  destruct (run_attempts_log w u (seq 0 maxRetries) (mkFetchState None None []))
    as (more & E & _ & I & _).
  rewrite E. exact I.
Qed.

(** C6. When the page was fetched and none of [og:image], [twitter:image]
    and [og:image:url] has a non-empty content, either handler replies with
    status 400 and the error "No article image found. Please try a different
    article.", and its log holds no image fetch: the request ends before the
    image is fetched and no card is composed. *)
Theorem no_image_is_400 (w : world) (b : body) (u hostname : str)
    (r : page_response) (doc : document) :
  url b = Some u -> truthy u = true -> URL_hostname w u = Some hostname ->
  ok r = true -> page r = Some doc ->
  no_content (og_image doc) -> no_content (twitter_image doc) ->
  no_content (og_image_url doc) ->
  (htmlResponse (fetch_with_retry w u) = Some r ->
     fst (POST w (Some b))
     = Error 400 (lit "No article image found. Please try a different article.")
     /\ forallb (fun e => negb (is_fetch_image e)) (snd (POST w (Some b))) = true)
  /\ (fetch_page w 0 = Responded r ->
     RouteHandler.POST w (Some b)
     = (Error 400 (lit "No article image found. Please try a different article."),
        [FetchPage u])).
Proof.
  intros Hu Ht Hh Hok Hp H1 H2 H3.
  pose proof (extract_imageUrl_empty doc H1 H2 H3) as Himg.
  assert (H403 : (status r =? 403) = false).
  { unfold ok in Hok. apply andb_prop in Hok as [_ Hle]. apply Nat.leb_le in Hle.
    apply Nat.eqb_neq. lia. }
  split.
  - intros Hr.
    assert (HP : POST w (Some b) = (no_image, events (fetch_with_retry w u))).
    { unfold POST. rewrite Hu, Ht, Hh. simpl negb. cbv iota.
      rewrite Hr, H403, Hok, Hp. simpl negb. cbv iota.
      now apply generate_no_image. }
    rewrite HP. split; [reflexivity|]. apply fetch_with_retry_no_image_fetch.
  - intros Hf. unfold RouteHandler.POST. rewrite Hu, Ht, Hh. simpl negb. cbv iota.
    rewrite Hf, Hok, Hp. simpl negb. cbv iota.
    now apply generate_no_image.
Qed.

Lemma no_image_is_400_witness :
  let w := sample_world (fun _ => Responded (mkResponse 200 (lit "OK") (Some scenario_B)))
             (ImageFetched (Some (Some 1200%Z, Some 600%Z))) in
  fst (POST w (Some sample_request))
  = Error 400 (lit "No article image found. Please try a different article.")
  /\ RouteHandler.POST w (Some sample_request)
     = (Error 400 (lit "No article image found. Please try a different article."),
        [FetchPage (lit "https://news.example.com/a")]).
Proof.
  cbv zeta.
  pose proof (@no_image_is_400
                (sample_world (fun _ => Responded (mkResponse 200 (lit "OK") (Some scenario_B)))
                   (ImageFetched (Some (Some 1200%Z, Some 600%Z))))
                sample_request (lit "https://news.example.com/a") (lit "news.example.com")
                (mkResponse 200 (lit "OK") (Some scenario_B)) scenario_B
                eq_refl eq_refl eq_refl eq_refl eq_refl
                (or_introl eq_refl) (or_introl eq_refl) (or_introl eq_refl)) as [Hretry Hroute].
  split.
  - apply Hretry. reflexivity.
  - apply Hroute. reflexivity.
Defined.

(** With an image the same page gives a card (scenario A): the horizontal
    image is cropped to the band above the text panel. *)
Example scenario_A :
  let doc := mkDocument (Some (lit "Big Story")) None [] (Some (lit "https://x/img.jpg"))
               None None
               [Some (JObj [(lit "author", JStr (lit "Jane Doe"));
                            (lit "publisher", JStr (lit "Daily News"));
                            (lit "datePublished", JStr (lit "2024-01-05"))])]
               None [] [] None None None None None None in
  let w := sample_world (fun _ => Responded (mkResponse 200 (lit "OK") (Some doc)))
             (ImageFetched (Some (Some 1200%Z, Some 600%Z))) in
  match fst (POST w (Some sample_request)) with
  | Success c title author date source imageUrl =>
      title = lit "Big Story" /\ author = JStr (lit "Jane Doe")
      /\ date = lit "January 5, 2024" /\ source = JStr (lit "Daily News")
      /\ resize_height c = (1000 - panel_height (text_panel c))%Z
      /\ panel_background (text_panel c) = lit "#FFFFFF"
  | Error _ _ => False
  end.
Proof. vm_compute. repeat split; reflexivity. Qed.

(** * Further properties of the pipeline *)

(** ** The wrap loses nothing *)

Lemma join_cons_nonempty sep p (ps : list str) :
  ps <> [] -> join sep (p :: ps) = p ++ sep ++ join sep ps.
Proof. destruct ps; [congruence | reflexivity]. Qed.

Lemma join_split_on sep s : join [sep] (split_on sep s) = s.
Proof.
  induction s as [|c s IH]; simpl; [reflexivity|].
  destruct (N.eqb_spec c sep) as [-> | Hne].
  - rewrite join_cons_nonempty by apply split_on_nonempty. now rewrite IH.
  - destruct (split_on sep s) as [|w ws] eqn:E; [now apply split_on_nonempty in E|].
    rewrite <- IH. destruct ws; reflexivity.
Qed.

Lemma join_snoc sep (l : list str) x : l <> [] -> join sep (l ++ [x]) = join sep l ++ sep ++ x.
Proof.
  induction l as [|p l IH]; [congruence|]. intros _.
  destruct l as [|q l]; [reflexivity|].
  change ((p :: q :: l) ++ [x]) with (p :: (q :: l) ++ [x]).
  change (join sep (p :: q :: l)) with (p ++ sep ++ join sep (q :: l)).
  assert (E : join sep (p :: (q :: l) ++ [x]) = p ++ sep ++ join sep ((q :: l) ++ [x]))
    by reflexivity.
  rewrite E, IH by discriminate. now rewrite <- !app_assoc.
Qed.

Lemma join_set_last sep (l : list str) x y :
  join sep (l ++ [x ++ y]) = join sep (l ++ [x]) ++ y.
Proof.
  destruct l as [|p l]; [reflexivity|].
  rewrite !join_snoc by discriminate. now rewrite <- !app_assoc.
Qed.

Lemma wrap_step_join budget lines word :
  lines <> [] ->
  wrap_step budget lines word <> []
  /\ join [sp] (wrap_step budget lines word) = join [sp] lines ++ [sp] ++ word.
Proof.
  intros Hne. unfold wrap_step, set_last.
  destruct (truthy (last lines []) && _).
  - split; [intros H; apply app_eq_nil in H as [_ H]; discriminate|].
    rewrite join_set_last, <- app_removelast_last by assumption. reflexivity.
  - split; [intros H; apply app_eq_nil in H as [_ H]; discriminate|].
    now apply join_snoc.
Qed.

Lemma fold_wrap_step_join budget words : forall lines,
  lines <> [] ->
  join [sp] (fold_left (wrap_step budget) words lines)
  = join [sp] lines ++ concat (map (fun w => sp :: w) words).
Proof.
  induction words as [|w ws IH]; intros lines Hne; simpl.
  - now rewrite app_nil_r.
  - destruct (wrap_step_join budget w Hne) as [Hne' E].
    rewrite IH, E by assumption. now rewrite <- app_assoc.
Qed.

Lemma concat_spaced words :
  words <> [] -> concat (map (fun w : str => sp :: w) words) = sp :: join [sp] words.
Proof.
  induction words as [|w ws IH]; [congruence|]. intros _.
  destruct ws as [|v ws]; [simpl; now rewrite app_nil_r|].
  change (concat (map (fun w0 : str => sp :: w0) (w :: v :: ws)))
    with ((sp :: w) ++ concat (map (fun w0 : str => sp :: w0) (v :: ws))).
  rewrite IH by discriminate. reflexivity.
Qed.

(** X1. The wrap neither drops nor reorders anything: the lines after the
    seed line, joined with single spaces, give back the wrapped string. *)
Theorem wrap_preserves_text (budget : nat) (s : str) :
  exists rest, wrap budget s = [] :: rest /\ join [sp] rest = s.
Proof.
  destruct (wrap_seed budget s) as (rest & E & Hne & _).
  exists rest. split; [assumption|].
  assert (H : join [sp] (wrap budget s) = sp :: s).
  { unfold wrap. rewrite fold_wrap_step_join by discriminate.
    rewrite concat_spaced by apply split_on_nonempty.
    now rewrite join_split_on. }
  rewrite E in H. destruct rest as [|r rest]; [congruence|].
  change (join [sp] ([] :: r :: rest)) with (sp :: join [sp] (r :: rest)) in H.
  now injection H.
Qed.

(** ** How many lines a wrap gives *)

Lemma split_on_length s : length (split_on sp s) = S (count_spaces s).
Proof.
  unfold count_spaces. induction s as [|c s IH]; [reflexivity|].
  cbn [split_on filter]. rewrite (N.eqb_sym sp c).
  destruct (N.eqb c sp); cbn [length].
  - now rewrite IH.
  - destruct (split_on sp s); cbn [length] in *; [discriminate | assumption].
Qed.

Lemma wrap_step_length budget lines word :
  lines <> [] -> length (wrap_step budget lines word) <= S (length lines).
Proof.
  intros Hne. unfold wrap_step, set_last.
  pose proof (app_removelast_last [] Hne) as E.
  apply (f_equal (@length str)) in E. rewrite length_app in E. simpl in E.
  destruct (truthy (last lines []) && _); rewrite length_app; simpl; unfold str in *; lia.
Qed.

Lemma fold_wrap_step_length budget words : forall lines,
  lines <> [] ->
  length (fold_left (wrap_step budget) words lines) <= length words + length lines.
Proof.
  induction words as [|w ws IH]; intros lines Hne; simpl; [lia|].
  destruct (wrap_step_join budget w Hne) as [Hne' _].
  pose proof (IH _ Hne'). pose proof (wrap_step_length budget w Hne). lia.
Qed.

Lemma count_spaces_app a b : count_spaces (a ++ b) = count_spaces a + count_spaces b.
Proof. unfold count_spaces. now rewrite filter_app, length_app. Qed.

Lemma count_spaces_le s : count_spaces s <= length s.
Proof. apply filter_length_le. Qed.

(** X2. A wrap gives at least two lines (the seed and the first word) and
    at most two more than the string has spaces; the title, cut to 150 code
    units before its three dots, is wrapped into at most 152 lines. *)
Theorem wrap_line_count (budget : nat) (s title : str) :
  2 <= length (wrap budget s) <= 2 + count_spaces s
  /\ length (titleLines title) <= 152.
Proof.
  assert (Hgen : forall b x, 2 <= length (wrap b x) <= 2 + count_spaces x).
  { intros b x. split.
    - destruct (wrap_seed b x) as (rest & -> & Hne & _).
      destruct rest; [congruence|]. simpl. lia.
    - unfold wrap.
      pose proof (@fold_wrap_step_length b (split_on sp x) [[]]) as H.
      rewrite split_on_length in H. simpl in H.
      assert ([[]] <> @nil str) by discriminate. specialize (H H0). lia. }
  split; [apply Hgen|].
  unfold titleLines. cbv zeta.
  destruct (Hgen (maxCharsPerLine (title_tier (cleanTitle title))) (cleanTitle title))
    as [_ H].
  assert (count_spaces (cleanTitle title) <= 150); [|lia].
  unfold cleanTitle, substring0. destruct (Nat.ltb_spec 150 (length title)).
  - rewrite count_spaces_app.
    pose proof (count_spaces_le (firstn 150 title)) as Hc.
    rewrite length_firstn in Hc.
    change (count_spaces (lit "...")) with 0. lia.
  - pose proof (count_spaces_le title). lia.
Qed.

(** The bound is reached by a title of spaces. *)
Example titleLines_150_spaces : length (titleLines (repeat sp 151)) = 152.
Proof. vm_compute. reflexivity. Qed.

(** X3. Truncation is idempotent and bounds the display title by 153 code
    units; a truncated title is always set in the smallest font tier. *)
Theorem cleanTitle_idempotent (title : str) :
  cleanTitle (cleanTitle title) = cleanTitle title
  /\ length (cleanTitle title) <= 153
  /\ (150 < length title -> title_tier (cleanTitle title) = mkTier 36 44 35).
Proof.
  destruct (Nat.ltb_spec 150 (length title)) as [H | H].
  - assert (E : cleanTitle title = firstn 150 title ++ lit "...").
    { unfold cleanTitle, substring0. apply Nat.ltb_lt in H. now rewrite H. }
    assert (L : length (firstn 150 title ++ lit "...") = 153).
    { rewrite length_app, length_firstn, lit_length. simpl String.length. lia. }
    rewrite E. split; [|split; [lia|]].
    + unfold cleanTitle, substring0. rewrite L. simpl Nat.ltb. cbv iota.
      rewrite firstn_app, length_firstn.
      replace (150 - Nat.min 150 (length title)) with 0 by lia.
      rewrite firstn_firstn. simpl. now rewrite app_nil_r.
    + intros _. unfold title_tier. rewrite L. reflexivity.
  - assert (E : cleanTitle title = title).
    { unfold cleanTitle. apply Nat.ltb_ge in H. now rewrite H. }
    rewrite !E. split; [reflexivity|]. split; lia.
Qed.

Lemma cleanTitle_idempotent_witness :
  title_tier (cleanTitle (repeat 65%N 151)) = mkTier 36 44 35.
Proof.
  apply (proj2 (proj2 (cleanTitle_idempotent (repeat 65%N 151)))).
  rewrite repeat_length. lia.
Defined.

(** ** Author clean-up *)

Example cleanAuthorName_byline :
  cleanAuthorName (lit "By  Jane   Doe | Staff Writer") = lit "Jane Doe".
Proof. vm_compute. reflexivity. Qed.

Lemma collapse_from_single_spaced s : forall in_run,
  single_spaced (collapse_from in_run s) = true
  /\ (in_run = true ->
      match collapse_from in_run s with [] => True | d :: _ => is_space d = false end).
Proof.
  induction s as [|c s IH]; intros in_run; [split; [reflexivity | intros _; exact I]|].
  cbn [collapse_from]. destruct (is_space c) eqn:Ec.
  - destruct in_run.
    + apply IH.
    + destruct (IH true) as [H1 H2]. specialize (H2 eq_refl).
      split; [|discriminate].
      cbn [single_spaced]. change (is_space sp) with true. cbv iota.
      rewrite N.eqb_refl, H1.
      destruct (collapse_from true s); [reflexivity|]. now rewrite H2.
  - destruct (IH false) as [H1 _]. split; [|intros _; exact Ec].
    cbn [single_spaced]. now rewrite Ec, H1.
Qed.

Lemma single_spaced_app_l a b : single_spaced (a ++ b) = true -> single_spaced a = true.
Proof.
  induction a as [|c a IH]; [reflexivity|]. cbn [app single_spaced].
  intros H. apply andb_prop in H as [H1 H2]. rewrite (IH H2), andb_true_r.
  destruct (is_space c); [|reflexivity].
  apply andb_prop in H1 as [-> H1]. destruct a; [reflexivity | exact H1].
Qed.

Lemma single_spaced_app_r a b : single_spaced (a ++ b) = true -> single_spaced b = true.
Proof.
  induction a as [|c a IH]; [auto|]. cbn [app single_spaced].
  intros H. apply andb_prop in H as [_ H2]. now apply IH.
Qed.

Lemma take_while_prefix f s : exists b, s = take_while f s ++ b.
Proof.
  induction s as [|c s (b & IH)]; simpl; [now exists []|].
  destruct (f c); [|now exists (c :: s)].
  exists b. simpl. now rewrite <- IH.
Qed.

Lemma take_while_forallb f s : forallb f (take_while f s) = true.
Proof.
  induction s as [|c s IH]; simpl; [reflexivity|].
  destruct (f c) eqn:E; [|reflexivity]. simpl. now rewrite E.
Qed.

Lemma drop_while_head f s :
  match drop_while f s with [] => True | c :: _ => f c = false end.
Proof.
  induction s as [|c s IH]; simpl; [exact I|].
  destruct (f c) eqn:E; [exact IH | exact E].
Qed.

Lemma trim_end_prefix s : exists b, s = trim_end s ++ b.
Proof.
  unfold trim_end. destruct (drop_while_suffix is_space (rev s)) as (a & Ha).
  exists (rev a). rewrite <- rev_app_distr, <- Ha. now rewrite rev_involutive.
Qed.

Lemma last_rev_cons (c : char) l d : last (rev (c :: l)) d = c.
Proof. simpl. apply last_last. Qed.

Lemma trim_trimmed s : trimmed (trim s).
Proof.
  unfold trim. set (y := trim_start s).
  assert (Hy : match y with [] => True | c :: _ => is_space c = false end)
    by apply drop_while_head.
  destruct (trim_end_prefix y) as (b & Hb).
  unfold trimmed. destruct (trim_end y) as [|c t] eqn:E; [exact I|].
  split.
  - rewrite Hb in Hy. exact Hy.
  - unfold trim_end in E.
    pose proof (drop_while_head is_space (rev y)) as Hd.
    destruct (drop_while is_space (rev y)) as [|d r] eqn:Ed; [discriminate|].
    rewrite <- E. now rewrite last_rev_cons.
Qed.

Lemma forallb_infix (f : char -> bool) a m b :
  forallb f (a ++ m ++ b) = true -> forallb f m = true.
Proof.
  rewrite !forallb_app. intros H.
  apply andb_prop in H as [_ H]. now apply andb_prop in H as [H _].
Qed.

Lemma last_default_indep {A : Type} (d d' : A) l : l <> [] -> last l d = last l d'.
Proof.
  induction l as [|x l IH]; [congruence|]. intros _.
  destruct l; [reflexivity|]. apply IH. discriminate.
Qed.

Lemma single_spaced_words s :
  single_spaced s = true ->
  (s <> [] -> is_space (last s sp) = false) ->
  Forall (fun w => w <> []) (tl (split_on sp s))
  /\ (forall c s', s = c :: s' -> is_space c = false ->
      Forall (fun w => w <> []) (split_on sp s)).
Proof.
  induction s as [|c s IH]; intros Hs Hl.
  - split; [constructor | discriminate].
  - cbn [single_spaced] in Hs. apply andb_prop in Hs as [Hc Hs].
    assert (Hl' : s <> [] -> is_space (last s sp) = false).
    { intros Hne. specialize (Hl ltac:(discriminate)).
      destruct s; [congruence | exact Hl]. }
    destruct (IH Hs Hl') as [IHt IHh].
    cbn [split_on]. destruct (N.eqb_spec c sp) as [-> | Hne].
    + change (is_space sp) with true in Hc. cbv iota in Hc.
      apply andb_prop in Hc as [_ Hc].
      split; [|intros c' s' Heq Hc'; injection Heq as <- _; discriminate].
      cbn [tl]. destruct s as [|d s].
      * specialize (Hl ltac:(discriminate)). discriminate.
      * apply negb_true_iff in Hc. now apply (IHh d s).
    + assert (Hcs : is_space c = false).
      { destruct (is_space c); [simpl in Hc; discriminate | reflexivity]. }
      destruct (split_on sp s) as [|w ws] eqn:E; [now apply split_on_nonempty in E|].
      cbn [tl] in *. split; [assumption|].
      intros _ _ _ _. constructor; [discriminate | assumption].
Qed.

(** X4. A cleaned author name holds none of the separators [|], bullet, en
    dash and em dash, has no white space at either end, and its white space
    is reduced to single spaces; so, unless it is empty, none of its
    space-delimited words is empty. *)
Theorem cleanAuthorName_clean (name : str) :
  let r := cleanAuthorName name in
  forallb (fun c => negb (is_author_separator c)) r = true
  /\ trimmed r
  /\ single_spaced r = true
  /\ (r <> [] -> Forall (fun w => w <> []) (split_on sp r)).
Proof.
  cbv zeta. unfold cleanAuthorName.
  destruct (negb (truthy name)).
  - repeat split; try reflexivity. congruence.
  - set (x := strip_prefix_ci (lit "author:") (strip_prefix_ci (lit "by") name)).
    set (t := take_while (fun c => negb (is_author_separator c)) (collapse_spaces x)).
    destruct (trim_infix t) as (a & b & Ht).
    assert (Hsep : forallb (fun c => negb (is_author_separator c)) (trim t) = true).
    { apply forallb_infix with (a := a) (b := b). rewrite <- Ht. apply take_while_forallb. }
    assert (Hss : single_spaced (trim t) = true).
    { destruct (take_while_prefix (fun c => negb (is_author_separator c)) (collapse_spaces x))
        as (rest & Hp).
      pose proof (proj1 (collapse_from_single_spaced x false)) as Hc.
      fold (collapse_spaces x) in Hc. rewrite Hp in Hc. fold t in Hc.
      apply single_spaced_app_l in Hc. rewrite Ht in Hc.
      apply single_spaced_app_r in Hc. now apply single_spaced_app_l in Hc. }
    pose proof (trim_trimmed t) as Htr.
    split; [assumption|]. split; [assumption|]. split; [assumption|].
    intros Hne. destruct (trim t) as [|c r] eqn:E; [congruence|].
    destruct Htr as [Hhd Hlast].
    rewrite (last_default_indep c sp Hne) in Hlast.
    exact (proj2 (single_spaced_words Hss (fun _ => Hlast)) c r eq_refl Hhd).
Qed.

Lemma cleanAuthorName_clean_witness :
  Forall (fun w => w <> []) (split_on sp (cleanAuthorName (lit "By  Jane   Doe | Staff Writer"))).
Proof.
  apply (proj2 (proj2 (proj2 (cleanAuthorName_clean (lit "By  Jane   Doe | Staff Writer"))))).
  vm_compute. discriminate.
Defined.

(** ** The text stays inside its panel *)

Lemma title_tier_handler_tiers s : In (title_tier s) handler_tiers.
Proof.
  unfold title_tier, handler_tiers.
  destruct (80 <? length s); [now left|].
  destruct (50 <? length s); [right; now left | right; right; now left].
Qed.

Lemma ofnat_nonneg i : (0 <= ofnat i)%Q.
Proof. unfold ofnat. change 0%Q with (inject_Z 0). rewrite <- Zle_Qle. lia. Qed.

Lemma ofnat_lt i n : i < n -> (ofnat i <= ofnat n - 1)%Q.
Proof.
  intros H. unfold ofnat. setoid_replace 1%Q with (inject_Z 1) by reflexivity.
  unfold Qminus. rewrite <- inject_Z_opp, <- inject_Z_plus, <- Zle_Qle. lia.
Qed.

Lemma place_from_Forall (P : Q -> Prop) y0 step lines : forall i0,
  (forall i, i0 <= i < i0 + length lines -> P (y0 + ofnat i * step)%Q) ->
  Forall (fun run : str * Q => P (snd run)) (place_from i0 y0 step lines).
Proof.
  induction lines as [|l lines IH]; intros i0 H; simpl; constructor.
  - apply H. simpl. lia.
  - apply IH. intros i Hi. apply H. simpl. lia.
Qed.

Lemma metadata_px_Q a ia id :
  (inject_Z (metadata_px a ia id)
   == (if ia then ofnat a * 18 else 0) + (if id then 18 else 0))%Q.
Proof. rewrite <- metadata_px_spec. reflexivity. Qed.

Lemma Qgtb_metadataBlockHeight a ia id :
  Qgtb (metadataBlockHeight a ia id) 0 = (0 <? metadata_px a ia id)%Z.
Proof.
  rewrite <- Qgtb_inject_Z. apply Qgtb_comp.
  rewrite metadataBlockHeight_spec. apply metadata_px_spec.
Qed.

Lemma textHeight_Q t n a ia id :
  In t handler_tiers ->
  (inject_Z (textHeight t n a ia id)
   == (ofnat n - 1) * inject_Z (lineHeight t) + inject_Z (tier_base t)
      + inject_Z (metadata_px a ia id)
      + (if (0 <? metadata_px a ia id)%Z then 15 else 0))%Q.
Proof.
  intros Ht. rewrite (textHeight_closed_form n a ia id Ht).
  rewrite !inject_Z_plus, inject_Z_mult. unfold Z.sub. rewrite inject_Z_plus.
  change (inject_Z (- (1))) with (- (1))%Q. unfold ofnat.
  destruct (0 <? metadata_px a ia id)%Z;
    [change (inject_Z 15) with 15%Q | change (inject_Z 0) with 0%Q]; ring.
Qed.

Ltac q_arith :=
  unfold titleStartY, topPadding, separatorSpacing, separatorHeight, metadataSpacing,
    metadataLineHeight, bottomPadding, tier_base in *;
  cbn [lineHeight titleFontSize] in *; unfold inject_Z in *; lra.

(** X5. In the inline SVG of route.ts, whose runs are placed by their
    baseline, with any of the three tiers and the computed height: every
    baseline (title lines, author lines, source and date) and the separator
    lie below the top edge of the panel and at least 20 pixels, the bottom
    padding, above its bottom edge; glyphs that descend at most 20 pixels
    below their baseline stay inside the panel. *)
Theorem inline_runs_inside (t : tier) (titleL authorL : list str)
    (ia id : bool) (background src dt : str) :
  In t handler_tiers -> titleL <> [] ->
  let h := textHeight t (length titleL) (length authorL) ia id in
  let p := inline_svg background t h titleL authorL ia id src dt in
  panel_anchor p = Baseline
  /\ Forall (fun run => (0 < snd run)%Q /\ (snd run + 20 <= inject_Z h)%Q) (panel_runs p)
  /\ ((0 < panel_separatorY p)%Q /\ (panel_separatorY p + 20 <= inject_Z h)%Q)
  /\ (forall ascent descent : Q, (descent <= 20)%Q ->
        Forall (fun run =>
                  (run_bottom (panel_anchor p) ascent descent (snd run) <= inject_Z h)%Q)
          (panel_runs p)).
Proof.
  intros Ht Hne h p.
  pose proof (textHeight_Q (length titleL) (length authorL) ia id Ht) as Hh. fold h in Hh.
  pose proof (metadata_px_Q (length authorL) ia id) as Hpx.
  pose proof (Qgtb_metadataBlockHeight (length authorL) ia id) as Hg.
  assert (Hn : (1 <= ofnat (length titleL))%Q).
  { destruct titleL as [|l titleL]; [congruence|].
    pose proof (@ofnat_lt 0 (length (l :: titleL))) as H.
    simpl length in *. specialize (H ltac:(lia)). change (ofnat 0) with 0%Q in H. lra. }
  pose proof (ofnat_nonneg (length authorL)) as Ha.
  assert (Hauthor : forall i, i < length authorL -> (ofnat i <= ofnat (length authorL) - 1)%Q)
    by (intros; now apply ofnat_lt).
  assert (Htitle : forall i, i < length titleL -> (ofnat i <= ofnat (length titleL) - 1)%Q)
    by (intros; now apply ofnat_lt).
  assert (Hsign : (0 <? metadata_px (length authorL) ia id)%Z = true
                  /\ (0 < inject_Z (metadata_px (length authorL) ia id))%Q
                  \/ (0 <? metadata_px (length authorL) ia id)%Z = false
                     /\ (inject_Z (metadata_px (length authorL) ia id) <= 0)%Q).
  { destruct (Z.ltb_spec 0 (metadata_px (length authorL) ia id)) as [Hp | Hp]; [left | right];
      (split; [reflexivity|]); change 0%Q with (inject_Z 0);
      [now rewrite <- Zlt_Qlt | now rewrite <- Zle_Qle]. }
  set (PX := inject_Z (metadata_px (length authorL) ia id)) in *.
  set (H := inject_Z h) in *.
  set (P := fun y : Q => (0 < y)%Q /\ (y + 20 <= H)%Q).
  assert (Htitles : Forall (fun run : str * Q => P (snd run))
                      (place (titleStartY t) (inject_Z (lineHeight t)) titleL)).
  { apply place_from_Forall. intros i Hi. pose proof (ofnat_nonneg i) as Hi0.
    pose proof (Htitle i ltac:(lia)) as Hi1. unfold P.
    clearbody PX H. destruct Hsign as [[Hb Hp] | [Hb Hp]]; rewrite Hb in Hh;
      simpl in Ht; destruct Ht as [<- | [<- | [<- | []]]]; destruct ia, id;
      split; q_arith. }
  assert (Hauthors : forall y0 : Q,
             (y0 == titleStartY t + (ofnat (length titleL) - 1) * inject_Z (lineHeight t)
                    + 12 + 2 + 15)%Q ->
             ia = true ->
             Forall (fun run : str * Q => P (snd run)) (place y0 metadataLineHeight authorL)).
  { intros y0 Hy0 Hia. apply place_from_Forall. intros i Hi. pose proof (ofnat_nonneg i) as Hi0.
    pose proof (Hauthor i ltac:(lia)) as Hi1. unfold P.
    clearbody PX H. subst ia. destruct Hsign as [[Hb Hp] | [Hb Hp]]; rewrite Hb in Hh;
      simpl in Ht; destruct Ht as [<- | [<- | [<- | []]]]; destruct id;
      split; q_arith. }
  assert (Hdate : forall y : Q,
             (y == titleStartY t + (ofnat (length titleL) - 1) * inject_Z (lineHeight t)
                   + 12 + 2 + 15 + (if ia then ofnat (length authorL) * 18 else 0))%Q ->
             id = true -> P y).
  { intros y Hy Hid. unfold P.
    clearbody PX H. subst id. destruct Hsign as [[Hb Hp] | [Hb Hp]]; rewrite Hb in Hh;
      simpl in Ht; destruct Ht as [<- | [<- | [<- | []]]]; destruct ia;
      split; q_arith. }
  assert (Hsep : P (titleStartY t + (ofnat (length titleL) - 1) * inject_Z (lineHeight t)
                    + separatorSpacing)%Q).
  { unfold P. clearbody PX H. destruct Hsign as [[Hb Hp] | [Hb Hp]]; rewrite Hb in Hh;
      simpl in Ht; destruct Ht as [<- | [<- | [<- | []]]]; destruct ia, id;
      split; q_arith. }
  assert (Hruns : Forall (fun run : str * Q => P (snd run)) (panel_runs p)).
  { subst p. unfold panel_runs, inline_svg, svg_panel. cbv zeta.
    cbn [panel_title panel_author panel_source_date]. rewrite Hg.
    apply Forall_app. split; [exact Htitles|]. apply Forall_app. split.
    + destruct ((0 <? metadata_px (length authorL) ia id)%Z && ia) eqn:E; [|constructor].
      apply andb_prop in E as [_ ->].
      apply Hauthors; [|reflexivity].
      unfold separatorSpacing, separatorHeight, metadataSpacing. unfold str. ring.
    + destruct ((0 <? metadata_px (length authorL) ia id)%Z && id) eqn:E; [|constructor].
      apply andb_prop in E as [_ ->].
      constructor; [|constructor]. cbn [snd]. apply Hdate; [|reflexivity].
      unfold separatorSpacing, separatorHeight, metadataSpacing, metadataLineHeight.
      destruct ia; unfold str; ring. }
  split; [reflexivity|]. split; [exact Hruns|]. split; [exact Hsep|].
  intros ascent descent Hd.
  change (panel_anchor p) with Baseline. cbn [run_bottom].
  eapply Forall_impl; [|exact Hruns]. intros run [_ Hr]. cbv beta. lra.
Qed.

Lemma inline_runs_inside_witness :
  let titleL := titleLines (lit "Senate passes the annual budget after a long night") in
  let authorL := wrap 60 (lit "JANE DOE") in
  let h := textHeight (mkTier 48 58 25) (length titleL) (length authorL) true true in
  Forall (fun run => (0 < snd run)%Q /\ (snd run + 20 <= inject_Z h)%Q)
    (panel_runs (inline_svg opaque_white (mkTier 48 58 25) h titleL authorL true true
                   (lit "DAILY NEWS") (lit "JANUARY 5, 2024"))).
Proof.
  cbv zeta.
  apply (@inline_runs_inside (mkTier 48 58 25)
           (titleLines (lit "Senate passes the annual budget after a long night"))
           (wrap 60 (lit "JANE DOE")) true true opaque_white
           (lit "DAILY NEWS") (lit "JANUARY 5, 2024")).
  - right. right. left. reflexivity.
  - vm_compute. discriminate.
Defined.

(** ** The two renderers: the same numbers, another anchor *)

Lemma place_from_same y0 y0' step lines : forall i,
  (y0 == y0')%Q -> same_runs (place_from i y0 step lines) (place_from i y0' step lines).
Proof.
  induction lines as [|l lines IH]; intros i H; simpl; constructor.
  - split; [reflexivity|]. simpl. now rewrite H.
  - now apply IH.
Qed.

Lemma place_from_last y0 step l lines i :
  snd (last (place_from i y0 step (l :: lines)) ([], 0%Q))
  = (y0 + ofnat (i + length lines) * step)%Q.
Proof.
  revert l i. induction lines as [|l' lines IH]; intros l i.
  - simpl. now rewrite Nat.add_0_r.
  - change (place_from i y0 step (l :: l' :: lines))
      with ((l, (y0 + ofnat i * step)%Q) :: place_from (S i) y0 step (l' :: lines)).
    change (last ((l, (y0 + ofnat i * step)%Q) :: place_from (S i) y0 step (l' :: lines))
              ([], 0%Q))
      with (last (place_from (S i) y0 step (l' :: lines)) ([], 0%Q)).
    rewrite IH. simpl length. now rewrite Nat.add_succ_r.
Qed.

Lemma last_title_y_place y0 step (lines : list str) w h bg a sep au sd :
  lines <> [] ->
  (last_title_y (mkPanel w h bg a (place y0 step lines) sep au sd)
   == y0 + (ofnat (length lines) - 1) * step)%Q.
Proof.
  intros H. destruct lines as [|l lines]; [congruence|].
  unfold last_title_y, place. cbn [panel_title]. rewrite place_from_last.
  simpl Nat.add. simpl length. unfold ofnat. rewrite Nat2Z.inj_succ. unfold Z.succ.
  rewrite inject_Z_plus. change (inject_Z 1) with 1%Q. ring.
Qed.

(** X6. The inline SVG of route.ts and [renderTextBox] are given the same
    [y] for the title lines and the separator, for the author lines when
    there are some, and for the source and date line when source and date
    are not empty; but the inline SVG places a run by its baseline and
    [renderTextBox] by the top of its glyph box. The separator is 12 pixels
    below the [y] of the last title line: in the inline SVG that line ends
    above the separator when its glyphs descend less than 12 pixels; in
    [renderTextBox] the separator crosses the glyph box of the line
    whenever the box is more than 12 pixels high, and with both flags off
    and the computed height the box reaches below the bottom edge of the
    panel whenever it is 35 pixels high or more. With an empty source
    [renderTextBox] draws no source and date line although the date is
    included, where the inline SVG draws one. *)
Theorem renderTextBox_top_anchored (t : tier) (h : Z) (titleL authorL : list str)
    (ia id : bool) (background src dt : str) :
  let p := inline_svg background t h titleL authorL ia id src dt in
  let q := text_to_svg background t h titleL authorL ia id src dt in
  (panel_anchor p = Baseline /\ panel_anchor q = LeftTop)
  /\ panel_title p = panel_title q
  /\ panel_separatorY p = panel_separatorY q
  /\ (authorL <> [] -> same_runs (panel_author p) (panel_author q))
  /\ (src <> [] -> dt <> [] -> same_positions (panel_source_date p) (panel_source_date q))
  /\ (id = true -> src = [] -> panel_source_date q = [] /\ panel_source_date p <> [])
  /\ (titleL <> [] ->
      (panel_separatorY q == last_title_y q + 12)%Q
      /\ (forall ascent descent : Q, (descent < 12)%Q ->
            (run_bottom (panel_anchor p) ascent descent (last_title_y p)
             < panel_separatorY p)%Q)
      /\ (forall ascent descent : Q, (12 < ascent + descent)%Q ->
            (run_top (panel_anchor q) ascent (last_title_y q) < panel_separatorY q)%Q
            /\ (panel_separatorY q
                < run_bottom (panel_anchor q) ascent descent (last_title_y q))%Q)
      /\ (In t handler_tiers ->
          h = textHeight t (length titleL) (length authorL) false false ->
          ia = false -> id = false ->
          forall ascent descent : Q, (35 <= ascent + descent)%Q ->
            (inject_Z h < run_bottom (panel_anchor q) ascent descent (last_title_y q))%Q)).
Proof.
  cbv zeta. split; [split; reflexivity|].
  assert (Hlast : titleL <> [] ->
            (last_title_y (text_to_svg background t h titleL authorL ia id src dt)
             == titleStartY t + (ofnat (length titleL) - 1) * inject_Z (lineHeight t))%Q
            /\ (last_title_y (inline_svg background t h titleL authorL ia id src dt)
                == titleStartY t + (ofnat (length titleL) - 1) * inject_Z (lineHeight t))%Q).
  { intros Hne. unfold inline_svg, svg_panel, text_to_svg, renderTextBox. cbv zeta.
    split; now rewrite last_title_y_place. }
  assert (Hsep : (panel_separatorY (text_to_svg background t h titleL authorL ia id src dt)
                  == titleStartY t + (ofnat (length titleL) - 1) * inject_Z (lineHeight t)
                     + 12)%Q
                 /\ (panel_separatorY (inline_svg background t h titleL authorL ia id src dt)
                     == titleStartY t + (ofnat (length titleL) - 1) * inject_Z (lineHeight t)
                        + 12)%Q).
  { unfold inline_svg, svg_panel, text_to_svg, renderTextBox. cbv zeta.
    cbn [panel_separatorY]. unfold titleStartY, separatorSpacing. unfold str.
    split; ring. }
  assert (Hanchors : panel_anchor (text_to_svg background t h titleL authorL ia id src dt)
                     = LeftTop
                     /\ panel_anchor (inline_svg background t h titleL authorL ia id src dt)
                        = Baseline) by (split; reflexivity).
  destruct Hanchors as [Aq Ap]. destruct Hsep as [Sq Sp].
  assert (Hid : id = true -> (0 <? metadata_px (length authorL) ia id)%Z = true).
  { intros ->. apply Z.ltb_lt. unfold metadata_px. destruct ia; lia. }
  split; [|split; [|split; [|split; [|split]]]].
  - reflexivity.
  - reflexivity.
  - unfold inline_svg, svg_panel, text_to_svg, renderTextBox. cbv zeta.
    cbn [panel_author]. rewrite Qgtb_metadataBlockHeight.
    intros Hne. destruct ia; [|rewrite andb_false_r; constructor].
    destruct authorL as [|a1 rest] eqn:EA; [congruence|]. rewrite <- EA.
    assert (Hpos : (0 <? metadata_px (length authorL) true id)%Z = true).
    { apply Z.ltb_lt. unfold metadata_px. rewrite EA. simpl length. destruct id; lia. }
    rewrite Hpos. simpl andb. cbv iota. apply place_from_same.
    unfold titleStartY, topPadding, separatorSpacing, separatorHeight, metadataSpacing.
    unfold str. ring.
  - unfold inline_svg, svg_panel, text_to_svg, renderTextBox. cbv zeta.
    cbn [panel_source_date]. rewrite Qgtb_metadataBlockHeight.
    intros Hs Hd. destruct id; [|rewrite andb_false_r; constructor].
    rewrite (Hid eq_refl). destruct dt; [congruence|]. destruct src; [congruence|].
    simpl andb. cbv iota. constructor; [|constructor]. cbn [snd].
    unfold titleStartY, topPadding, separatorSpacing, separatorHeight, metadataSpacing,
      metadataLineHeight.
    destruct ia; [destruct authorL as [|a1 rest]|]; unfold str; cbv iota;
      try change (ofnat (length (@nil (list char)))) with 0%Q; ring.
  - unfold inline_svg, svg_panel, text_to_svg, renderTextBox. cbv zeta.
    cbn [panel_source_date]. rewrite Qgtb_metadataBlockHeight.
    intros -> ->. rewrite (Hid eq_refl). simpl andb. cbv iota.
    split; [|discriminate]. rewrite andb_false_r. reflexivity.
  - intros Hne. destruct (Hlast Hne) as [Lq Lp].
    rewrite Aq, Ap. cbn [run_top run_bottom].
    split; [rewrite Sq, Lq; reflexivity|]. split; [|split].
    + intros ascent descent Hd. rewrite Sp, Lp. lra.
    + intros ascent descent Hd. rewrite Sq, Lq. split; lra.
    + intros Ht Hh -> -> ascent descent Hd. rewrite Lq.
      pose proof (textHeight_Q (length titleL) (length authorL) false false Ht) as HQ.
      rewrite <- Hh in HQ. rewrite HQ.
      change (metadata_px (length authorL) false false) with 0%Z.
      cbn [Z.ltb Z.compare]. change (inject_Z 0) with 0%Q.
      simpl in Ht. destruct Ht as [<- | [<- | [<- | []]]]; q_arith.
Qed.

Lemma renderTextBox_top_anchored_witness :
  let q := text_to_svg opaque_white (mkTier 48 58 25) 153%Z [[]; lit "Big Story"]
             [[]; lit "JANE DOE"] false false (lit "DAILY NEWS") (lit "JANUARY 5, 2024") in
  textHeight (mkTier 48 58 25) 2 2 false false = 153%Z
  /\ (153 < run_bottom (panel_anchor q) 46 12 (last_title_y q))%Q.
Proof.
  cbv zeta. split; [reflexivity|].
  pose proof (@renderTextBox_top_anchored (mkTier 48 58 25) 153%Z [[]; lit "Big Story"]
                [[]; lit "JANE DOE"] false false opaque_white (lit "DAILY NEWS")
                (lit "JANUARY 5, 2024")) as H.
  cbv zeta in H. destruct H as (_ & _ & _ & _ & _ & _ & H).
  assert (Hne : [[]; lit "Big Story"] <> @nil str) by discriminate.
  destruct (H Hne) as (_ & _ & _ & Hover).
  assert (Ht : In (mkTier 48 58 25) handler_tiers) by (right; right; left; reflexivity).
  assert (Hd : (35 <= 46 + 12)%Q) by (vm_compute; discriminate).
  exact (Hover Ht eq_refl eq_refl eq_refl 46%Q 12%Q Hd).
Defined.

(** ** Field resolver: defaults *)

Lemma attr_or_truthy a rest : truthy rest = true -> truthy (attr_or a rest) = true.
Proof.
  intros H. unfold attr_or. destruct a as [s|]; [|assumption].
  destruct (truthy s) eqn:E; assumption.
Qed.

Lemma fallback_unknown_author_truthy f :
  truthy_json (author (fallback_unknown_author f)) = true.
Proof.
  unfold fallback_unknown_author. destruct (truthy_json (author f)) eqn:E; [exact E | reflexivity].
Qed.

Lemma starts_with_skipn p s : starts_with p s = true -> s = p ++ skipn (length p) s.
Proof.
  revert s. induction p as [|a p IH]; intros s H; [reflexivity|].
  destruct s as [|b s]; [discriminate|]. simpl in *.
  apply andb_prop in H as [E H]. apply N.eqb_eq in E. subst b.
  f_equal. now apply IH.
Qed.

Lemma replace_first_empty p s : replace_first p [] s = [] -> s = [] \/ s = p.
Proof.
  destruct s as [|c s]; [now left|]. intros H. right.
  cbn [replace_first] in H.
  destruct (starts_with p (c :: s)) eqn:E; [|discriminate].
  apply starts_with_skipn in E. cbn [app] in H. rewrite H, app_nil_r in E. exact E.
Qed.

(** X7. Whatever the page holds, the extracted title and the author
    resolved by either handler are never empty; the resolved source is
    empty only when the hostname of the request is empty (as it is for a
    [data:] URL) or exactly [www.]. *)
Theorem resolved_never_empty (doc : document) (hostname : option str) :
  truthy (extract_title doc) = true
  /\ truthy_json (author (resolve_fields doc hostname)) = true
  /\ truthy_json (author (Route.resolve_fields doc hostname)) = true
  /\ (truthy_json (source (resolve_fields doc hostname)) = false ->
      hostname = Some [] \/ hostname = Some (lit "www."))
  /\ (truthy_json (source (Route.resolve_fields doc hostname)) = false ->
      hostname = Some [] \/ hostname = Some (lit "www.")).
Proof.
  assert (Hs : forall g, source (fallback_unknown_author g) = source g).
  { intros g. unfold fallback_unknown_author. destruct (truthy_json (author g)); reflexivity. }
  assert (Hh : forall f,
             truthy_json (source (fallback_hostname hostname f)) = false ->
             hostname = Some [] \/ hostname = Some (lit "www.")).
  { intros f. unfold fallback_hostname.
    destruct (truthy_json (source f)) eqn:E; [congruence|].
    destruct hostname as [h|]; [|discriminate].
    cbn [source set_source truthy_json]. intros H.
    destruct (replace_first (lit "www.") [] h) eqn:R; [|discriminate].
    destruct (replace_first_empty _ _ R) as [-> | ->]; [now left | now right]. }
  split; [|split; [|split; [|split]]].
  - unfold extract_title. apply attr_or_truthy, attr_or_truthy.
    unfold or_else. destruct (truthy (title_text doc)) eqn:E; [exact E | reflexivity].
  - apply fallback_unknown_author_truthy.
  - apply fallback_unknown_author_truthy.
  - unfold resolve_fields. rewrite Hs. apply Hh.
  - unfold Route.resolve_fields. rewrite Hs. apply Hh.
Qed.

Lemma resolved_never_empty_witness :
  truthy_json (source (resolve_fields scenario_B (Some []))) = false
  /\ (Some (@nil char) = Some [] \/ Some (@nil char) = Some (lit "www.")).
Proof.
  assert (H : truthy_json (source (resolve_fields scenario_B (Some []))) = false)
    by (vm_compute; reflexivity).
  split; [exact H|].
  exact (proj1 (proj2 (proj2 (proj2 (resolved_never_empty scenario_B (Some [])))) ) H).
Defined.

(** ** Field resolver: the shapes of a JSON-LD author *)

Lemma all_some_map_Some {A : Type} (xs : list A) : all_some (map Some xs) = Some xs.
Proof. induction xs as [|x xs IH]; simpl; [reflexivity | now rewrite IH]. Qed.

Lemma join_values_strings sep names :
  join_values sep (map JStr names) = Some (join sep names).
Proof.
  unfold join_values.
  assert (E : all_some (map (fun x => match x with JNull => Some [] | _ => to_string x end)
                          (map JStr names)) = Some names).
  { induction names as [|n names IH]; [reflexivity|].
    cbn [map all_some to_string]. now rewrite IH. }
  now rewrite E.
Qed.

Lemma filter_truthy_strings names :
  filter truthy_json (map JStr names) = map JStr (filter truthy names).
Proof.
  induction names as [|n names IH]; simpl; [reflexivity|].
  destruct (truthy n); simpl; now rewrite IH.
Qed.

(** X8. A JSON-LD [author] array whose entries are strings or objects with
    a non-empty string [name] resolves to the names joined with a comma and
    a space, empty strings dropped. *)
Theorem author_array_names (items : list json) (names : list str) (f : fields) :
  Forall2 author_entry items names ->
  truthy_json (author f) = false ->
  extract_author (JObj [(lit "author", JArr items)]) f
  = Some (set_author (JStr (join (lit ", ") (filter truthy names))) f).
Proof.
  intros HF Hf. unfold extract_author. rewrite Hf.
  cbn [prop lookup]. change (str_eqb (lit "author") (lit "author")) with true. cbv iota.
  cbn [truthy_json].
  assert (Hmap : map (fun a => match prop (lit "name") a with
                               | None => None
                               | Some n => Some (if truthy_opt n
                                                 then match n with Some v => v | None => a end
                                                 else a)
                               end) items
                 = map Some (map JStr names)).
  { induction HF as [|item n items names He _ IH]; [reflexivity|].
    cbn [map]. rewrite IH. f_equal.
    destruct He as [n | members n Hl Hn].
    - reflexivity.
    - cbn [prop]. rewrite Hl. cbn [truthy_opt truthy_json].
      destruct n; [congruence | reflexivity]. }
  unfold author_of_array. rewrite Hmap, all_some_map_Some, filter_truthy_strings,
    join_values_strings. reflexivity.
Qed.

Lemma author_array_names_witness :
  extract_author
    (JObj [(lit "author",
            JArr [JObj [(lit "name", JStr (lit "Jane Doe"))]; JStr []; JStr (lit "John Roe")])])
    initial_fields
  = Some (set_author (JStr (lit "Jane Doe, John Roe")) initial_fields).
Proof.
  apply (@author_array_names _ [lit "Jane Doe"; []; lit "John Roe"] initial_fields).
  - constructor; [|constructor; [|constructor; [|constructor]]].
    + apply entry_named; [reflexivity | discriminate].
    + apply entry_string.
    + apply entry_string.
  - reflexivity.
Defined.

(** An object whose [name] is the empty string is not dropped: it is
    joined as an object. *)
Example author_array_empty_name :
  author_of_array [JObj [(lit "name", JStr [])]; JStr (lit "John Roe")]
  = Some (JStr (lit "[object Object], John Roe")).
Proof. vm_compute. reflexivity. Qed.

(** ** Field resolver: scripts without data *)

Ltac scan_flags f :=
  destruct (truthy_json (author f)) eqn:Ea, (truthy_json (source f)) eqn:Es,
    (truthy_json (date f)) eqn:Ed;
  cbv beta iota; rewrite ?Ea, ?Es, ?Ed; reflexivity.

Lemma scan_object_inert data f :
  inert_object data = true -> snd (scan_object data f) = f.
Proof.
  intros H. unfold scan_object, extract_author, extract_source, extract_date.
  destruct data as [ | b | text | s | items | members]; cbn [prop]; try scan_flags f.
  cbn [inert_object] in H.
  destruct (lookup (lit "author") members); [discriminate|].
  destruct (lookup (lit "publisher") members); [discriminate|].
  destruct (lookup (lit "datePublished") members); [discriminate|].
  scan_flags f.
Qed.

Lemma scan_objects_inert items f :
  forallb inert_object items = true -> scan_objects items f = f.
Proof.
  revert f. induction items as [|data rest IH]; intros f H; [reflexivity|].
  simpl in H. apply andb_prop in H as [Hd Hr].
  cbn [scan_objects]. pose proof (scan_object_inert data f Hd) as E.
  destruct (scan_object data f) as [[ | | ] f']; simpl in E; subst f'; auto.
Qed.

Lemma scan_script_inert script f : inert_script script = true -> scan_script script f = f.
Proof.
  intros H. destruct script as [v|]; [|reflexivity].
  unfold scan_script.
  destruct v; cbn [inert_script] in H; apply scan_objects_inert;
    first [exact H | cbn [forallb]; rewrite H; reflexivity].
Qed.

(** X9. JSON-LD scripts that do not parse, or that hold no object with an
    [author], [publisher] or [datePublished] ([null], numbers, strings,
    other schemas), change nothing and do not stop the scan: the scripts
    around them are read as if they were not there. *)
Theorem inert_scripts_skipped (before inert after : list (option json)) (f : fields) :
  forallb inert_script inert = true ->
  scan_scripts (before ++ inert ++ after) f = scan_scripts (before ++ after) f.
Proof.
  intros H. unfold scan_scripts. rewrite !fold_left_app. f_equal.
  generalize (fold_left (fun acc script => scan_script script acc) before f) as g.
  induction inert as [|s inert IH]; intros g; [reflexivity|].
  simpl in H. apply andb_prop in H as [Hs Hi].
  simpl. rewrite (scan_script_inert s g Hs). now apply IH.
Qed.

Lemma inert_scripts_skipped_witness :
  scan_scripts
    ([] ++ [None; Some JNull; Some (JArr [JNum (lit "7"); JObj [(lit "@type", JStr (lit "WebSite"))]])]
        ++ [Some (JObj [(lit "author", JStr (lit "Jane Doe"))])]) initial_fields
  = scan_scripts ([] ++ [Some (JObj [(lit "author", JStr (lit "Jane Doe"))])]) initial_fields.
Proof.
  apply inert_scripts_skipped. reflexivity.
Defined.

(** ** Field resolver: the source taken from the hostname *)

Lemma replace_first_absent p r s : includes p s = false -> replace_first p r s = s.
Proof.
  induction s as [|c s IH]; simpl; intros H.
  - rewrite orb_false_r in H. now rewrite H.
  - apply orb_false_elim in H as [H1 H2]. rewrite H1. f_equal. now apply IH.
Qed.

Lemma fallback_source_empty doc f :
  truthy_json (source f) = false ->
  no_content (og_site_name doc) -> no_content (application_name doc) ->
  source (fallback_source doc f) = JStr [].
Proof.
  intros Hf Hog Happ. unfold fallback_source. rewrite Hf.
  destruct Hog as [-> | ->], Happ as [-> | ->]; reflexivity.
Qed.

(** X10. When no JSON-LD script names a publisher and [og:site_name] and
    [application-name] have no content, the source is the hostname of the
    request without its leading [www.]; a hostname that does not contain
    [www.] is taken as it is. *)
Theorem source_from_hostname (doc : document) (h : str) :
  truthy_json (source (scan_scripts (jsonLdScripts doc) initial_fields)) = false ->
  no_content (og_site_name doc) -> no_content (application_name doc) ->
  source (resolve_fields doc (Some (lit "www." ++ h))) = JStr h
  /\ (includes (lit "www.") h = false -> source (resolve_fields doc (Some h)) = JStr h).
Proof.
  intros Hscan Hog Happ.
  assert (Hgen : forall host,
             source (resolve_fields doc (Some host))
             = JStr (replace_first (lit "www.") [] host)).
  { intros host. unfold resolve_fields.
    set (f0 := scan_scripts (jsonLdScripts doc) initial_fields) in *.
    assert (H1 : source (fallback_author doc f0) = source f0).
    { unfold fallback_author.
      repeat match goal with |- context [if ?b then _ else _] => destruct b end;
        reflexivity. }
    assert (H2 : forall g, source (fallback_date doc g) = source g).
    { intros g. unfold fallback_date. destruct (truthy_json (date g)); reflexivity. }
    assert (H3 : source (fallback_source doc (fallback_date doc (fallback_author doc f0)))
                 = JStr []).
    { apply fallback_source_empty; [now rewrite H2, H1 | assumption | assumption]. }
    assert (H4 : forall g, source (fallback_unknown_author g) = source g).
    { intros g. unfold fallback_unknown_author. destruct (truthy_json (author g)); reflexivity. }
    rewrite H4. unfold fallback_hostname. rewrite H3. reflexivity. }
  split.
  - rewrite Hgen. reflexivity.
  - intros Hinc. rewrite Hgen. now rewrite replace_first_absent.
Qed.

Lemma source_from_hostname_witness :
  source (resolve_fields scenario_B (Some (lit "www." ++ lit "example.com")))
  = JStr (lit "example.com")
  /\ source (resolve_fields scenario_B (Some (lit "news.example.com")))
     = JStr (lit "news.example.com").
Proof.
  pose proof (@source_from_hostname scenario_B (lit "example.com") eq_refl
                (or_introl eq_refl) (or_introl eq_refl)) as [H1 _].
  pose proof (@source_from_hostname scenario_B (lit "news.example.com") eq_refl
                (or_introl eq_refl) (or_introl eq_refl)) as [_ H2].
  split; [exact H1 | apply H2; reflexivity].
Defined.

(** The first [www.] is removed wherever it stands. *)
Example source_inner_www :
  source (resolve_fields scenario_B (Some (lit "news.www.example.com")))
  = JStr (lit "news.example.com").
Proof. vm_compute. reflexivity. Qed.

(** ** The article:author heuristic, in general *)

Lemma title_case_from_length prev s : length (title_case_from prev s) = length s.
Proof.
  revert prev. induction s as [|c s IH]; intros prev; simpl; [reflexivity | now rewrite IH].
Qed.

Lemma includes_cons p c s : includes p (c :: s) = starts_with p (c :: s) || includes p s.
Proof. reflexivity. Qed.

Lemma match_profile_absent s : includes (lit "profile/") s = false -> match_profile s = None.
Proof.
  induction s as [|c s IH]; intros H; rewrite match_profile_eq.
  - reflexivity.
  - rewrite includes_cons in H. apply orb_false_elim in H as [H1 H2].
    rewrite H1. cbn [andb]. now apply IH.
Qed.

(** X11. For one entry of [article:author]: when the trimmed entry is a base
    without [profile/], then [profile/], then a non-empty rest without line
    terminator, the name is the whole rest (further slashes included) with
    dashes turned into spaces and word starts upper-cased, as long as the
    rest; an entry without [profile/] gives no name. *)
Theorem profile_name_rest (piece base rest : str) :
  (trim piece = base ++ lit "profile/" ++ rest ->
   includes (lit "profile/") base = false ->
   dot_plus_to_end rest = true ->
   profile_name piece = title_case (dashes_to_spaces rest)
   /\ length (profile_name piece) = length rest)
  /\ (includes (lit "profile/") (trim piece) = false -> profile_name piece = []).
Proof.
  split.
  - intros Ht Hb Hd. unfold profile_name. rewrite Ht, match_profile_base by assumption.
    split; [reflexivity|].
    unfold title_case, dashes_to_spaces. now rewrite title_case_from_length, length_map.
  - intros H. unfold profile_name. now rewrite match_profile_absent.
Qed.

Lemma profile_name_rest_witness :
  profile_name (lit " https://site.com/profile/staff/john-smith ") = lit "Staff/John Smith"
  /\ profile_name (lit "https://twitter.com/janedoe") = [].
Proof.
  split.
  - apply (proj1 (@profile_name_rest (lit " https://site.com/profile/staff/john-smith ")
                    (lit "https://site.com/") (lit "staff/john-smith"))).
    + vm_compute. reflexivity.
    + vm_compute. reflexivity.
    + vm_compute. reflexivity.
  - apply (proj2 (@profile_name_rest (lit "https://twitter.com/janedoe") [] [])).
    vm_compute. reflexivity.
Defined.

(** ** The log of a request *)

Ltac shape k := exists k; split; [lia | reflexivity].

Ltac last_attempt w :=
  rewrite run_attempts_cons; cbv zeta;
  change (2 <? maxRetries - 1) with false;
  destruct (fetch_page w 2) as [r2 | e2];
  [destruct (ok r2 || _); [shape 2 | rewrite andb_false_r; shape 2] | shape 2].

Lemma fetch_with_retry_shapes w u :
  exists k, k <= 2 /\ events (fetch_with_retry w u) = retried u k ++ [FetchPage u].
Proof.
  unfold fetch_with_retry. simpl seq.
  rewrite run_attempts_cons. cbv zeta. change (0 <? maxRetries - 1) with true.
  destruct (fetch_page w 0) as [r0 | e0].
  - destruct (ok r0 || _); [shape 0|].
    destruct ((500 <=? status r0) && true); [|shape 0].
    rewrite run_attempts_cons. cbv zeta. change (1 <? maxRetries - 1) with true.
    destruct (fetch_page w 1) as [r1 | e1].
    + destruct (ok r1 || _); [shape 1|].
      destruct ((500 <=? status r1) && true); [|shape 1].
      last_attempt w.
    + last_attempt w.
  - rewrite run_attempts_cons. cbv zeta. change (1 <? maxRetries - 1) with true.
    destruct (fetch_page w 1) as [r1 | e1].
    + destruct (ok r1 || _); [shape 1|].
      destruct ((500 <=? status r1) && true); [|shape 1].
      last_attempt w.
    + last_attempt w.
Qed.

Lemma generate_log w render b doc f log :
  snd (generate w render b doc f log) = log
  /\ fst (generate w render b doc f log) = no_image
  /\ extract_imageUrl doc = []
  \/ snd (generate w render b doc f log) = log ++ [FetchImage (extract_imageUrl doc)]
     /\ extract_imageUrl doc <> []
     /\ fst (generate w render b doc f log) <> no_image.
Proof.
  unfold generate. destruct (extract_imageUrl doc) as [|c img] eqn:E.
  - left. repeat split; reflexivity.
  - right. cbn [truthy negb].
    repeat match goal with
      | |- context [match ?x with _ => _ end] => destruct x
      end; repeat split; try reflexivity; discriminate.
Qed.

Lemma POST_log w request :
  snd (POST w request) = []
  \/ exists u k,
       k <= 2
       /\ (snd (POST w request) = retried u k ++ [FetchPage u]
           \/ exists img, img <> []
                /\ snd (POST w request) = retried u k ++ [FetchPage u; FetchImage img]).
Proof.
  unfold POST. destruct request as [b|]; [|now left].
  destruct (url b) as [u|]; [|now left].
  destruct (negb (truthy u)); [now left|].
  destruct (URL_hostname w u) as [hostname|]; [|now left].
  right. destruct (fetch_with_retry_shapes w u) as (k & Hk & E).
  exists u, k. split; [assumption|].
  destruct (htmlResponse (fetch_with_retry w u)) as [r|]; [|now left].
  destruct (status r =? 403); [now left|].
  destruct (negb (ok r)); [now left|].
  destruct (page r) as [doc|]; [|now left].
  destruct (generate_log w text_to_svg b doc (resolve_fields doc (Some hostname))
              (events (fetch_with_retry w u))) as [(H & _ & _) | (H & Hi & _)].
  - left. now rewrite H.
  - right. exists (extract_imageUrl doc). split; [assumption|].
    rewrite H, E, <- app_assoc. reflexivity.
Qed.

Lemma retried_counts u k :
  fetches (retried u k) = k /\ total_sleep (retried u k) = (2 ^ k - 1) * 1000
  /\ forallb (fun e => negb (is_fetch_image e)) (retried u k) = true.
Proof.
  induction k as [|k (IH1 & IH2 & IH3)]; [repeat split; reflexivity|].
  rewrite retried_succ. unfold fetches in *. rewrite filter_app, length_app, forallb_app.
  rewrite IH1, IH3. split; [simpl; lia|]. split; [|reflexivity].
  assert (Happ : forall a b, total_sleep (a ++ b) = total_sleep a + total_sleep b).
  { intros a b. induction a as [|[ | | ] a IHa]; simpl; lia. }
  rewrite Happ, IH2. cbn [total_sleep].
  assert (1 <= 2 ^ k) by (apply Nat.neq_0_lt_0, Nat.pow_nonzero; discriminate).
  rewrite Nat.pow_succ_r'. lia.
Qed.

(** X12. Whatever the world answers, a request of the retry handler fetches
    the page at most 3 times, backs off at most 3 seconds in all, and fetches
    at most one image, as the last thing it does; after the last page fetch
    it never waits. *)
Theorem request_log_bounds (w : world) (request : option body) :
  let log := snd (POST w request) in
  fetches log <= 3
  /\ total_sleep log <= 3000
  /\ length (filter is_fetch_image log) <= 1
  /\ match last log (FetchPage []) with Sleep _ => False | _ => True end
  /\ (forall before img after, log = before ++ FetchImage img :: after -> after = []).
Proof.
  cbv zeta.
  assert (Happ : forall a b, total_sleep (a ++ b) = total_sleep a + total_sleep b).
  { intros a b. induction a as [|[ | | ] a IHa]; simpl; lia. }
  assert (Hpow : forall k, k <= 2 -> (2 ^ k - 1) * 1000 <= 3000).
  { intros k Hk. destruct k as [|[|[|k]]]; simpl; lia. }
  destruct (POST_log w request) as [-> | (u & k & Hk & [-> | (img & Hi & ->)])].
  - split; [unfold fetches; simpl; lia|]. split; [simpl; lia|]. split; [simpl; lia|]. split.
    + exact I.
    + intros before img after H. destruct before; discriminate.
  - destruct (retried_counts u k) as (HF & HS & HI).
    unfold fetches in *. rewrite filter_app, length_app, Happ, HF, HS.
    split; [simpl; lia|]. split; [simpl; specialize (Hpow k Hk); lia|].
    split; [|split].
    + rewrite filter_app, length_app.
      assert (E : filter is_fetch_image (retried u k) = []).
      { clear -HI. induction (retried u k) as [|e l IH]; [reflexivity|].
        simpl in *. apply andb_prop in HI as [He Hl]. apply negb_true_iff in He.
        rewrite He. now apply IH. }
      rewrite E. simpl. lia.
    + rewrite last_last. exact I.
    + intros before img after H.
      assert (Hin : In (FetchImage img) (retried u k ++ [FetchPage u])).
      { rewrite H. apply in_or_app. right. now left. }
      apply in_app_or in Hin as [Hin | [Hin | []]]; [|discriminate].
      rewrite forallb_forall in HI. specialize (HI _ Hin). discriminate.
  - destruct (retried_counts u k) as (HF & HS & HI).
    unfold fetches in *. rewrite filter_app, length_app, Happ, HF, HS.
    split; [simpl; lia|]. split; [simpl; specialize (Hpow k Hk); lia|].
    split; [|split].
    + rewrite filter_app, length_app.
      assert (E : filter is_fetch_image (retried u k) = []).
      { clear -HI. induction (retried u k) as [|e l IH]; [reflexivity|].
        simpl in *. apply andb_prop in HI as [He Hl]. apply negb_true_iff in He.
        rewrite He. now apply IH. }
      rewrite E. simpl. lia.
    + change [FetchPage u; FetchImage img] with ([FetchPage u] ++ [FetchImage img]).
      rewrite app_assoc, last_last. exact I.
    + intros before img' after H.
      change [FetchPage u; FetchImage img] with ([FetchPage u] ++ [FetchImage img]) in H.
      rewrite app_assoc in H.
      destruct after as [|a after] using rev_ind; [reflexivity|].
      exfalso. clear IHafter.
      change (before ++ FetchImage img' :: after ++ [a])
        with (before ++ (FetchImage img' :: after) ++ [a]) in H.
      rewrite app_assoc in H. apply app_inj_tail in H as [H _].
      assert (Hin : In (FetchImage img') (retried u k ++ [FetchPage u])).
      { rewrite H. apply in_or_app. right. now left. }
      apply in_app_or in Hin as [Hin | [Hin | []]]; [|discriminate].
      rewrite forallb_forall in HI. specialize (HI _ Hin). discriminate.
Qed.


Lemma request_log_bounds_witness :
  snd (POST world_503_then_page (Some sample_request))
  = [FetchPage sample_url; Sleep 1000; FetchPage sample_url]
      ++ FetchImage (lit "https://x/img.jpg") :: []
  /\ @nil event = [].
Proof.
  split; [vm_compute; reflexivity|].
  apply (proj2 (proj2 (proj2 (proj2 (request_log_bounds world_503_then_page
                                       (Some sample_request)))))
           [FetchPage sample_url; Sleep 1000; FetchPage sample_url]
           (lit "https://x/img.jpg") []).
  vm_compute. reflexivity.
Defined.

(** ** Client errors are final *)

Lemma json_error_passes st m :
  300 <= st <= 599 -> st <> 304 -> json_error st m = Error st m.
Proof.
  intros [H1 H2] H3. unfold json_error, reply_status, null_body_status.
  assert (E1 : (200 <=? st) = true) by (apply Nat.leb_le; lia).
  assert (E2 : (st <=? 599) = true) by (apply Nat.leb_le; lia).
  assert (E3 : (st =? 101) = false) by (apply Nat.eqb_neq; lia).
  assert (E4 : (st =? 103) = false) by (apply Nat.eqb_neq; lia).
  assert (E5 : (st =? 204) = false) by (apply Nat.eqb_neq; lia).
  assert (E6 : (st =? 205) = false) by (apply Nat.eqb_neq; lia).
  assert (E7 : (st =? 304) = false) by (apply Nat.eqb_neq; lia).
  rewrite E1, E2, E3, E4, E5, E6, E7. reflexivity.
Qed.

Lemma json_error_above st m : 599 < st -> json_error st m = unexpected.
Proof.
  intros H. unfold json_error, reply_status.
  assert (E : (st <=? 599) = false) by (apply Nat.leb_gt; lia).
  rewrite E, andb_false_r. reflexivity.
Qed.

Lemma fetch_with_retry_final w u k r :
  k < 3 -> (forall j, j < k -> retryable w j) ->
  fetch_page w k = Responded r -> final_answer r ->
  htmlResponse (fetch_with_retry w u) = Some r
  /\ events (fetch_with_retry w u) = retried u k ++ [FetchPage u].
Proof.
  intros Hk Hretry Hf Hfinal. unfold fetch_with_retry.
  destruct (@run_attempts_retried w u k 0 maxRetries (mkFetchState None None []))
    as (st' & E & L).
  { intros j Hj. apply Hretry. lia. }
  { unfold maxRetries. lia. }
  { unfold maxRetries. lia. }
  rewrite E. simpl Nat.add.
  assert (Hseq : seq k (maxRetries - k) = k :: seq (S k) (maxRetries - S k)).
  { unfold maxRetries. destruct k as [|[|[|k]]]; try reflexivity. lia. }
  rewrite Hseq. erewrite run_attempts_stop; [|exact Hf|exact Hfinal].
  simpl. rewrite L. split; reflexivity.
Qed.

(** X13. An answer with a 4xx status ends the request at once, without
    back-off after it: a 403 is reported as blocked access, with status 403;
    any other 4xx is passed through with its own status and status text. The
    single-fetch handler of route.ts passes a 403 through like any other
    status. *)
Theorem client_error_is_final (w : world) (b : body) (u hostname : str) (k : nat)
    (r : page_response) :
  url b = Some u -> truthy u = true -> URL_hostname w u = Some hostname ->
  k < 3 -> (forall j, j < k -> retryable w j) ->
  fetch_page w k = Responded r -> 400 <= status r < 500 ->
  POST w (Some b)
  = (if status r =? 403 then blocked else fetch_failed r, retried u k ++ [FetchPage u])
  /\ (k = 0 -> RouteHandler.POST w (Some b) = (fetch_failed r, [FetchPage u])).
Proof.
  intros Hu Ht Hh Hk Hretry Hf Hs.
  assert (Hok : ok r = false).
  { unfold ok. apply andb_false_intro2. apply Nat.leb_gt. lia. }
  split.
  - destruct (@fetch_with_retry_final w u k r Hk Hretry Hf) as [Hr He]; [right; exact Hs|].
    unfold POST. rewrite Hu, Ht, Hh. simpl negb. cbv iota. rewrite Hr, He, Hok.
    destruct (status r =? 403); [reflexivity|].
    cbn [negb]. rewrite json_error_passes by lia. reflexivity.
  - intros ->. unfold RouteHandler.POST. rewrite Hu, Ht, Hh. simpl negb. cbv iota.
    rewrite Hf, Hok. cbn [negb]. rewrite json_error_passes by lia. reflexivity.
Qed.

Lemma client_error_is_final_witness :
  POST world_failure_then_403 (Some sample_request)
  = (blocked, [FetchPage sample_url; Sleep 1000; FetchPage sample_url]).
Proof.
  assert (H : forall j, j < 1 -> retryable world_failure_then_403 j).
  { intros j Hj. destruct j; [exact I | lia]. }
  assert (Hk : 1 < 3) by lia.
  assert (Hs : 400 <= status (mkResponse 403 (lit "Forbidden") None) < 500)
    by (cbn [status]; lia).
  exact (proj1 (@client_error_is_final world_failure_then_403 sample_request sample_url
                  (lit "news.example.com") 1 (mkResponse 403 (lit "Forbidden") None)
                  eq_refl eq_refl eq_refl Hk H eq_refl Hs)).
Defined.

(** ** Exhausted retries *)

Lemma retry_tests r :
  500 <= status r ->
  ok r || (400 <=? status r) && (status r <? 500) = false
  /\ (500 <=? status r) = true
  /\ (status r =? 403) = false
  /\ ok r = false.
Proof.
  intros H. unfold ok.
  assert (H1 : (status r <=? 299) = false) by (apply Nat.leb_gt; lia).
  assert (H2 : (status r <? 500) = false) by (apply Nat.ltb_ge; lia).
  rewrite H1, H2, !andb_false_r. repeat split; try reflexivity.
  - now apply Nat.leb_le.
  - apply Nat.eqb_neq. lia.
Qed.

(** X14. When the three attempts all fail (answers with a status of 500 or
    more, or network failures) and at least one was answered, the log is
    three fetches with back-offs of one and two seconds, and the reply
    depends on the latest answer, also when the attempts after it failed at
    the network level: a status up to 599 is passed through with its
    status text; a status above 599 (some sites answer 999) cannot be the
    status of a reply, and the reply is the catch-all 500. *)
Theorem exhausted_retries_report_last_answer (w : world) (b : body) (u hostname : str)
    (r : page_response) :
  url b = Some u -> truthy u = true -> URL_hostname w u = Some hostname ->
  (forall j, j < 3 -> retryable w j) ->
  last_response w = Some r ->
  POST w (Some b)
  = (if status r <=? 599 then fetch_failed r else unexpected,
     [FetchPage u; Sleep 1000; FetchPage u; Sleep 2000; FetchPage u]).
Proof.
  intros Hu Ht Hh Hretry Hlast.
  pose proof (Hretry 0 ltac:(lia)) as R0. pose proof (Hretry 1 ltac:(lia)) as R1.
  pose proof (Hretry 2 ltac:(lia)) as R2.
  unfold retryable in R0, R1, R2. unfold last_response in Hlast.
  assert (J : forall r', 500 <= status r' ->
                json_error (status r')
                  (lit "Failed to fetch article: " ++ dec (status r') ++ lit " " ++ statusText r')
                = if status r' <=? 599 then fetch_failed r' else unexpected).
  { intros r' H. destruct (Nat.leb_spec (status r') 599).
    - now rewrite json_error_passes by lia.
    - now apply json_error_above. }
  unfold POST. rewrite Hu, Ht, Hh. simpl negb. cbv iota.
  unfold fetch_with_retry. simpl seq.
  rewrite run_attempts_cons. cbv zeta. change (0 <? maxRetries - 1) with true.
  destruct (fetch_page w 0) as [r0 | e0];
    [destruct (retry_tests r0 R0) as (T0 & G0 & F0 & K0); rewrite T0, G0; simpl andb|];
    cbv iota;
    (rewrite run_attempts_cons; cbv zeta; change (1 <? maxRetries - 1) with true;
     destruct (fetch_page w 1) as [r1 | e1];
     [destruct (retry_tests r1 R1) as (T1 & G1 & F1 & K1); rewrite T1, G1; simpl andb|];
     cbv iota;
     (rewrite run_attempts_cons; cbv zeta; change (2 <? maxRetries - 1) with false;
      destruct (fetch_page w 2) as [r2 | e2];
      [destruct (retry_tests r2 R2) as (T2 & G2 & F2 & K2); rewrite T2, G2; simpl andb|];
      cbv iota; cbn [run_attempts htmlResponse events lastError];
      try discriminate Hlast; injection Hlast as <-;
      rewrite ?F0, ?F1, ?F2, ?K0, ?K1, ?K2; cbn [negb];
      rewrite J by assumption; reflexivity)).
Qed.

Lemma exhausted_retries_report_last_answer_witness :
  POST world_502_then_failures (Some sample_request)
  = (fetch_failed (mkResponse 502 (lit "Bad Gateway") None),
     [FetchPage sample_url; Sleep 1000; FetchPage sample_url; Sleep 2000;
      FetchPage sample_url]).
Proof.
  apply (@exhausted_retries_report_last_answer world_502_then_failures sample_request
           sample_url (lit "news.example.com") (mkResponse 502 (lit "Bad Gateway") None)).
  - reflexivity.
  - reflexivity.
  - reflexivity.
  - intros j Hj. destruct j as [|[|[|j]]]; [cbn; lia | exact I | exact I | lia].
  - reflexivity.
Defined.

(** A site that answers 999 three times: the reply is the catch-all 500. *)
Example status_999_is_unexpected :
  POST (sample_world (fun _ => Responded (mkResponse 999 (lit "Request denied") None))
          ImageFailed)
       (Some sample_request)
  = (unexpected,
     [FetchPage sample_url; Sleep 1000; FetchPage sample_url; Sleep 2000;
      FetchPage sample_url]).
Proof. vm_compute. reflexivity. Qed.

(** ** What a card in the reply guarantees *)

Lemma resolved_never_empty_title doc :
  truthy (extract_title doc) = true /\ extract_title doc <> [].
Proof.
  assert (H : truthy (extract_title doc) = true).
  { unfold extract_title. apply attr_or_truthy, attr_or_truthy.
    unfold or_else. destruct (truthy (title_text doc)) eqn:E; [exact E | reflexivity]. }
  split; [exact H|]. intros E. rewrite E in H. discriminate.
Qed.

Lemma formattedDate_nonempty Date_parse today v : formattedDate Date_parse today v <> [].
Proof.
  unfold formattedDate, today_dashed.
  assert (Hd : dashed (format_short today) <> []).
  { rewrite dashed_format_short. destruct (date_month today); discriminate. }
  destruct (truthy_json v); [|exact Hd].
  destruct (Date_parse v) as [d | | ]; [|discriminate|exact Hd].
  unfold format_long. destruct (date_month d); discriminate.
Qed.

Lemma generate_success w render b doc f log c t a d s img log' :
  generate w render b doc f log = (Success c t a d s img, log') ->
  exists au so iw ih,
    img = extract_imageUrl doc /\ img <> [] /\ t = extract_title doc
    /\ a = JStr au /\ author f = JStr au /\ s = JStr so /\ source f = JStr so
    /\ d = formattedDate (Date_parse w) (today w) (date f)
    /\ fetch_image w img = ImageFetched (Some (iw, ih))
    /\ composite w c = true
    /\ log' = log ++ [FetchImage img]
    /\ c = (let cleanT := cleanTitle t in
            let authorLines := wrap maxAuthorCharsPerLine (toUpperCase w (cleanAuthorName au)) in
            let tr := title_tier cleanT in
            let titleL := wrap (maxCharsPerLine tr) cleanT in
            let textH := textHeight tr (length titleL) (length authorLines)
                           (includeAuthor b) (includeDate b) in
            compose_card
              (fun background =>
                 render background tr textH titleL authorLines (includeAuthor b)
                   (includeDate b) (toUpperCase w so) (toUpperCase w d))
              textH iw ih).
Proof.
  unfold generate. destruct (extract_imageUrl doc) as [|ch im] eqn:Ei; [discriminate|].
  cbn [truthy negb]. destruct (fetch_image w (ch :: im)) as [|m] eqn:Ef; [discriminate|].
  destruct (author f) as [ | | | au | | ] eqn:Ea; try discriminate.
  destruct (source f) as [ | | | so | | ] eqn:Es; try discriminate.
  destruct m as [[iw ih]|]; [|discriminate].
  match goal with |- context [composite w ?card] => destruct (composite w card) eqn:Ec end;
    [|discriminate].
  intros H. injection H as <- <- <- <- <- <- <-.
  exists au, so, iw, ih. repeat split; try reflexivity; try assumption. discriminate.
Qed.

(** X15. A reply with a card is only given for a request with a usable URL,
    and then: the image URL, the title and the date are not empty, author and
    source are strings and the author is not empty, the last thing the
    request did was to fetch that image, and on the card the text panel is
    800 wide and ends at the bottom edge. *)
Theorem card_reply_guarantees (w : world) (request : option body) (c : card)
    (t d img : str) (a s : json) (log : list event) :
  POST w request = (Success c t a d s img, log) ->
  exists b au so before,
    request = Some b /\ valid_url w b
    /\ t <> [] /\ d <> [] /\ img <> []
    /\ a = JStr au /\ au <> [] /\ s = JStr so
    /\ log = before ++ [FetchImage img]
    /\ composite w c = true
    /\ resize_width c = 800%Z /\ panel_width (text_panel c) = 800%Z
    /\ (text_top c + panel_height (text_panel c) = 1000)%Z.
Proof.
  unfold POST. destruct request as [b|]; [|discriminate].
  destruct (url b) as [u|] eqn:Hu; [|discriminate].
  destruct (truthy u) eqn:Ht; [|discriminate]. cbn [negb].
  destruct (URL_hostname w u) as [hostname|] eqn:Hh; [|discriminate].
  destruct (htmlResponse (fetch_with_retry w u)) as [r|]; [|discriminate].
  destruct (status r =? 403); [discriminate|].
  destruct (negb (ok r));
    [unfold json_error; destruct (reply_status (status r)); discriminate|].
  destruct (page r) as [doc|]; [|discriminate].
  intros H. apply generate_success in H
    as (au & so & iw & ih & Hi & Hne & Htt & Ha & Haf & Hs & Hsf & Hd & Hf & Hc & Hl & Hcard).
  exists b, au, so, (events (fetch_with_retry w u)).
  split; [reflexivity|]. split; [exists u, hostname; auto|].
  split.
  { rewrite Htt. intros E. pose proof (proj1 (resolved_never_empty_title doc)) as Hti.
    rewrite E in Hti. discriminate. }
  split; [rewrite Hd; apply formattedDate_nonempty|].
  split; [assumption|]. split; [assumption|]. split.
  { pose proof (fallback_unknown_author_truthy
                  (fallback_hostname (Some hostname)
                     (fallback_source doc
                        (fallback_date doc
                           (fallback_author doc
                              (scan_scripts (jsonLdScripts doc) initial_fields)))))) as Hau.
    change (truthy_json (author (resolve_fields doc (Some hostname))) = true) in Hau.
    rewrite Haf in Hau. destruct au; [discriminate | discriminate]. }
  split; [assumption|]. split; [assumption|]. split; [assumption|].
  rewrite Hcard. cbv zeta. unfold compose_card.
  destruct (isHorizontal iw ih); cbn -[Z.add Z.sub]; unfold totalHeight;
    repeat split; try reflexivity; lia.
Qed.

Lemma card_reply_guarantees_witness :
  match POST world_scenario_D (Some sample_request) with
  | (Success c t a d s img, log) =>
      a = JStr (lit "John Smith, Jane Doe")
      /\ (text_top c + panel_height (text_panel c) = 1000)%Z
  | (Error _ _, _) => False
  end.
Proof.
  destruct (POST world_scenario_D (Some sample_request)) as [[st err | c t a d s img] log] eqn:E.
  - vm_compute in E. discriminate.
  - destruct (card_reply_guarantees _ _ E)
      as (b & au & so & before & _ & _ & _ & _ & _ & _ & _ & _ & _ & _ & _ & _ & H).
    split; [|exact H].
    vm_compute in E. now injection E as _ _ <- _ _ _ _.
Defined.

(** ** Failures after the page was fetched *)

(** X16. When the page was fetched and names an image, but the image cannot
    be fetched, either handler replies with status 500 and "Failed to fetch
    article image", after exactly one image fetch. *)
Theorem image_failure_is_500 (w : world) (b : body) (u hostname : str)
    (r : page_response) (doc : document) :
  url b = Some u -> truthy u = true -> URL_hostname w u = Some hostname ->
  ok r = true -> page r = Some doc ->
  extract_imageUrl doc <> [] -> fetch_image w (extract_imageUrl doc) = ImageFailed ->
  (htmlResponse (fetch_with_retry w u) = Some r ->
     POST w (Some b)
     = (Error 500 (lit "Failed to fetch article image"),
        events (fetch_with_retry w u) ++ [FetchImage (extract_imageUrl doc)]))
  /\ (fetch_page w 0 = Responded r ->
     RouteHandler.POST w (Some b)
     = (Error 500 (lit "Failed to fetch article image"),
        [FetchPage u; FetchImage (extract_imageUrl doc)])).
Proof.
  intros Hu Ht Hh Hok Hp Himg Hfail.
  assert (H403 : (status r =? 403) = false).
  { unfold ok in Hok. apply andb_prop in Hok as [_ Hle]. apply Nat.leb_le in Hle.
    apply Nat.eqb_neq. lia. }
  assert (Hgen : forall render f log,
             generate w render b doc f log
             = (Error 500 (lit "Failed to fetch article image"),
                log ++ [FetchImage (extract_imageUrl doc)])).
  { intros render f log. unfold generate.
    destruct (extract_imageUrl doc) as [|ch im] eqn:E; [congruence|].
    cbn [truthy negb]. now rewrite Hfail. }
  split.
  - intros Hr. unfold POST. rewrite Hu, Ht, Hh. simpl negb. cbv iota.
    rewrite Hr, H403, Hok, Hp. simpl negb. cbv iota. apply Hgen.
  - intros Hf. unfold RouteHandler.POST. rewrite Hu, Ht, Hh. simpl negb. cbv iota.
    rewrite Hf, Hok, Hp. simpl negb. cbv iota. apply Hgen.
Qed.

Lemma image_failure_is_500_witness :
  RouteHandler.POST world_image_fails (Some sample_request)
  = (Error 500 (lit "Failed to fetch article image"),
     [FetchPage sample_url; FetchImage (extract_imageUrl scenario_D)]).
Proof.
  assert (Hne : extract_imageUrl scenario_D <> []) by (vm_compute; discriminate).
  exact (proj2 (@image_failure_is_500 world_image_fails sample_request sample_url
                  (lit "news.example.com") (mkResponse 200 (lit "OK") (Some scenario_D))
                  scenario_D eq_refl eq_refl eq_refl eq_refl eq_refl Hne eq_refl) eq_refl).
Defined.

(** X17. A JSON-LD author or publisher name that is not a string (a number,
    say) is taken as the field's value, and the request then fails: after
    the page and the image were fetched the reply is the catch-all 500. *)
Theorem non_string_field_is_500 (w : world) (b : body) (u hostname : str)
    (r : page_response) (doc : document) (metadata : option (option Z * option Z)) :
  url b = Some u -> truthy u = true -> URL_hostname w u = Some hostname ->
  htmlResponse (fetch_with_retry w u) = Some r -> ok r = true -> page r = Some doc ->
  extract_imageUrl doc <> [] ->
  fetch_image w (extract_imageUrl doc) = ImageFetched metadata ->
  (forall s, author (resolve_fields doc (Some hostname)) <> JStr s)
  \/ (forall s, source (resolve_fields doc (Some hostname)) <> JStr s) ->
  POST w (Some b)
  = (unexpected, events (fetch_with_retry w u) ++ [FetchImage (extract_imageUrl doc)]).
Proof.
  intros Hu Ht Hh Hr Hok Hp Himg Hf Hns.
  assert (H403 : (status r =? 403) = false).
  { unfold ok in Hok. apply andb_prop in Hok as [_ Hle]. apply Nat.leb_le in Hle.
    apply Nat.eqb_neq. lia. }
  unfold POST. rewrite Hu, Ht, Hh. simpl negb. cbv iota.
  rewrite Hr, H403, Hok, Hp. simpl negb. cbv iota.
  unfold generate. destruct (extract_imageUrl doc) as [|ch im] eqn:E; [congruence|].
  cbn [truthy negb]. rewrite Hf.
  destruct (author (resolve_fields doc (Some hostname))) as [ | | | au | | ] eqn:Ea;
    try reflexivity.
  destruct (source (resolve_fields doc (Some hostname))) as [ | | | so | | ] eqn:Es;
    try reflexivity.
  destruct Hns as [H | H]; [now specialize (H au) | now specialize (H so)].
Qed.

Lemma non_string_field_is_500_witness :
  POST world_numeric_author (Some sample_request)
  = (unexpected, [FetchPage sample_url; FetchImage (lit "https://x/img.jpg")]).
Proof.
  assert (Hne : extract_imageUrl numeric_author <> []) by (vm_compute; discriminate).
  assert (Hns : forall s, author (resolve_fields numeric_author (Some (lit "news.example.com")))
                          <> JStr s).
  { intros s. vm_compute. discriminate. }
  exact (@non_string_field_is_500 world_numeric_author sample_request sample_url
           (lit "news.example.com") (mkResponse 200 (lit "OK") (Some numeric_author))
           numeric_author (Some (Some 1200%Z, Some 600%Z))
           eq_refl eq_refl eq_refl eq_refl eq_refl eq_refl Hne eq_refl (or_introl Hns)).
Defined.

(** ** The network is used for usable URLs only *)

(** X18. Both handlers touch the network exactly when the body holds a
    non-empty string that parses as a URL: then the log starts with the
    fetch of that URL; otherwise the reply is a 400 and nothing is
    fetched. *)
Theorem network_only_for_valid_url (w : world) (b : body) :
  (forall u hostname,
      url b = Some u -> truthy u = true -> URL_hostname w u = Some hostname ->
      (exists rest, snd (POST w (Some b)) = FetchPage u :: rest)
      /\ (exists rest, snd (RouteHandler.POST w (Some b)) = FetchPage u :: rest))
  /\ (~ valid_url w b ->
      exists msg,
        (msg = lit "URL is required" \/ msg = lit "Invalid URL format")
        /\ POST w (Some b) = (Error 400 msg, [])
        /\ RouteHandler.POST w (Some b) = (Error 400 msg, [])).
Proof.
  split.
  - intros u hostname Hu Ht Hh. split.
    + destruct (fetch_with_retry_shapes w u) as (k & Hk & E).
      assert (Hhd : exists tl, events (fetch_with_retry w u) = FetchPage u :: tl).
      { rewrite E. destruct k as [|k]; [now exists []|].
        unfold retried. simpl seq. simpl flat_map. eexists. reflexivity. }
      destruct Hhd as (tl & Htl).
      unfold POST. rewrite Hu, Ht, Hh. simpl negb. cbv iota.
      destruct (htmlResponse (fetch_with_retry w u)) as [r|]; [|now exists tl].
      destruct (status r =? 403); [now exists tl|].
      destruct (negb (ok r)); [now exists tl|].
      destruct (page r) as [doc|]; [|now exists tl].
      destruct (generate_log w text_to_svg b doc (resolve_fields doc (Some hostname))
                  (events (fetch_with_retry w u))) as [(H & _ & _) | (H & _ & _)];
        rewrite H, Htl; eexists; reflexivity.
    + unfold RouteHandler.POST. rewrite Hu, Ht, Hh. simpl negb. cbv iota.
      destruct (fetch_page w 0) as [r | e]; [|now exists []].
      destruct (negb (ok r)); [now exists []|].
      destruct (page r) as [doc|]; [|now exists []].
      destruct (generate_log w inline_svg b doc (Route.resolve_fields doc (Some hostname))
                  [FetchPage u]) as [(H & _ & _) | (H & _ & _)];
        rewrite H; eexists; reflexivity.
  - intros Hnv. unfold POST, RouteHandler.POST.
    destruct (url b) as [u|] eqn:Hu; [|exists (lit "URL is required"); auto].
    destruct (truthy u) eqn:Ht; [|exists (lit "URL is required"); auto].
    destruct (URL_hostname w u) as [hostname|] eqn:Hh;
      [|exists (lit "Invalid URL format"); auto].
    exfalso. apply Hnv. exists u, hostname. auto.
Qed.

Lemma network_only_for_valid_url_witness :
  (exists rest, snd (POST world_scenario_D (Some sample_request)) = FetchPage sample_url :: rest)
  /\ POST world_scenario_D (Some (mkBody (Some (lit "not a url")) true true))
     = (Error 400 (lit "Invalid URL format"), []).
Proof.
  split.
  - exact (proj1 (proj1 (network_only_for_valid_url world_scenario_D sample_request)
                    sample_url (lit "news.example.com") eq_refl eq_refl eq_refl)).
  - destruct (proj2 (network_only_for_valid_url world_scenario_D
                       (mkBody (Some (lit "not a url")) true true)))
      as (msg & [-> | ->] & H & _).
    + intros (u & hostname & Hu & _ & Hh). injection Hu as <-. vm_compute in Hh. discriminate.
    + vm_compute in H. discriminate.
    + exact H.
Defined.

(** ** The page and the handler *)

Lemma trim_truthy s : truthy (trim s) = true -> truthy s = true.
Proof. destruct s; [discriminate | reflexivity]. Qed.

Lemma generate_reply w render b doc f log :
  match fst (generate w render b doc f log) with
  | Error st m => (st = 400 \/ st = 500) /\ In (first_unit m) [70; 78; 65]%N
  | Success c t a d so i => composite w c = true /\ t <> [] /\ d <> [] /\ i <> []
  end.
Proof.
  destruct (generate w render b doc f log) as [[st m | c t a d so i] log'] eqn:E; cbn [fst].
  - revert E. unfold generate.
    destruct (truthy (extract_imageUrl doc)); cbn [negb].
    2:{ intros [= <- <- _]. split; [now left | right; left; reflexivity]. }
    destruct (fetch_image w (extract_imageUrl doc)) as [|md].
    { intros [= <- <- _]. split; [now right | left; reflexivity]. }
    assert (U : forall l, (unexpected, l) = (Error st m, log') ->
                (st = 400 \/ st = 500) /\ In (first_unit m) [70; 78; 65]%N).
    { intros l [= <- <- _]. split; [now right | right; right; left; reflexivity]. }
    destruct (author f); try apply U.
    destruct (source f); try apply U.
    destruct md as [[iw ih]|]; [|apply U].
    destruct (composite w _); [discriminate | apply U].
  - apply generate_success in E.
    destruct E as (au & so' & iw & ih & Hi & Hne & Ht & _ & _ & _ & _ & Hd & _ & Hc & _).
    subst t d. repeat split; trivial.
    + apply resolved_never_empty_title.
    + apply formattedDate_nonempty.
Qed.

Lemma handler_reply w handler b u h :
  handler = POST w \/ handler = RouteHandler.POST w ->
  url b = Some u -> truthy u = true -> URL_hostname w u = Some h ->
  match fst (handler (Some b)) with
  | Error st m =>
      Home.response_ok (Error st m) = false /\ In (first_unit m) [70; 84; 78; 65]%N
  | Success c t a d so i => composite w c = true /\ t <> [] /\ d <> [] /\ i <> []
  end.
Proof.
  intros Hh Hu Ht Hw.
  assert (G : forall render doc f log,
             match fst (generate w render b doc f log) with
             | Error st m =>
                 Home.response_ok (Error st m) = false
                 /\ In (first_unit m) [70; 84; 78; 65]%N
             | Success c t a d so i => composite w c = true /\ t <> [] /\ d <> [] /\ i <> []
             end).
  { intros render doc f log. pose proof (generate_reply w render b doc f log) as G.
    destruct (fst (generate w render b doc f log)) as [st m|]; [|exact G].
    destruct G as [[-> | ->] Hm]; (split; [reflexivity|]);
      cbn in Hm |- *; intuition. }
  assert (N : forall r tl, negb (ok r) = true ->
             Home.response_ok
               (Error (status r) (lit "Failed to fetch article: " ++ tl)) = false
             /\ In (first_unit (lit "Failed to fetch article: " ++ tl)) [70; 84; 78; 65]%N).
  { intros r tl Hr. split; [|left; reflexivity].
    unfold ok in Hr. cbn [Home.response_ok]. now apply negb_true_iff in Hr. }
  destruct Hh as [-> | ->].
  - unfold POST. rewrite Hu, Ht, Hw. cbn [negb]. cbv zeta.
    destruct (htmlResponse (fetch_with_retry w u)) as [r|]; cbn [fst].
    2:{ split; [reflexivity | left; reflexivity]. }
    destruct (status r =? 403); cbn [fst].
    { split; [reflexivity | right; left; reflexivity]. }
    destruct (negb (ok r)) eqn:Hr; cbn [fst].
    { unfold json_error. destruct (reply_status (status r)); [now apply N|].
      cbn. split; [reflexivity | intuition]. }
    destruct (page r); [apply G|].
    cbn. split; [reflexivity | intuition].
  - unfold RouteHandler.POST. rewrite Hu, Ht, Hw. cbn [negb].
    destruct (fetch_page w 0) as [r|e]; cbn [fst].
    2:{ cbn. split; [reflexivity | intuition]. }
    destruct (negb (ok r)) eqn:Hr; cbn [fst].
    { unfold json_error. destruct (reply_status (status r)); [now apply N|].
      cbn. split; [reflexivity | intuition]. }
    destruct (page r); [apply G|].
    cbn. split; [reflexivity | intuition].
Qed.

(** X19. One run of [handleGenerate], whatever the API answers. A run that
    fails the page's own check (the trimmed field is empty, or the field
    does not parse as a URL) sends nothing, sets one of the two messages
    and leaves everything else as it was: a card and metadata of an earlier
    request stay on the page beside the message. A run that passes sends
    exactly one request, with the field as typed and the two flags, ends
    with [loading] false, and ends either without card and metadata, or
    with no error and the card and metadata of a success reply. *)
Theorem handleGenerate_page_state (w : world) (api : body -> Home.outcome) (s : Home.state) :
  let s' := fst (Home.handleGenerate w api s) in
  let sent := snd (Home.handleGenerate w api s) in
  Home.url s' = Home.url s
  /\ Home.includeAuthor s' = Home.includeAuthor s
  /\ Home.includeDate s' = Home.includeDate s
  /\ (sent = []
      /\ (truthy (trim (Home.url s)) = false
          /\ Home.error s' = lit "Please enter a valid URL"
          \/ truthy (trim (Home.url s)) = true /\ URL_hostname w (Home.url s) = None
             /\ Home.error s' = lit "Please enter a valid URL format")
      /\ Home.generatedImage s' = Home.generatedImage s
      /\ Home.metadata s' = Home.metadata s
      /\ Home.loading s' = Home.loading s
      \/
      sent = [mkBody (Some (Home.url s)) (Home.includeAuthor s) (Home.includeDate s)]
      /\ truthy (trim (Home.url s)) = true
      /\ URL_hostname w (Home.url s) <> None
      /\ Home.loading s' = false
      /\ (Home.generatedImage s' = None /\ Home.metadata s' = None
          \/ exists c t a d so i,
               api (mkBody (Some (Home.url s)) (Home.includeAuthor s) (Home.includeDate s))
               = Home.Answered (Success c t a d so i)
               /\ Home.error s' = []
               /\ Home.generatedImage s' = Some c
               /\ Home.metadata s' = Some (Home.mkArticle t a d so i))).
Proof.
  cbv zeta. unfold Home.handleGenerate.
  destruct (truthy (trim (Home.url s))) eqn:Et; cbn [negb].
  2:{ cbn. repeat split. left. repeat split. now left. }
  destruct (URL_hostname w (Home.url s)) as [h|] eqn:Eh.
  2:{ cbn. repeat split. left. repeat split. right. now repeat split. }
  cbn [fst snd]. unfold Home.request_of.
  destruct (api _) as [[m|] | [st m | c t a d so i]] eqn:Ea.
  - cbn. repeat split. right. repeat split; [discriminate | now left].
  - cbn. repeat split. right. repeat split; [discriminate | now left].
  - cbn [Home.settle]. destruct (negb (Home.response_ok (Error st m)));
      cbn; repeat split; right; (repeat split; [discriminate | now left]).
  - cbn. repeat split. right. repeat split; [discriminate|].
    right. exists c, t, a, d, so, i. now repeat split.
Qed.

(** X20. The page in front of either version of the handler. When the
    page's own check passes, the handler's validation never fires: neither
    of its two messages reaches the page. The run ends with [loading]
    false and one of two states: a non-empty error that is the message of
    the handler's error reply (the page's own fall-back text is never
    shown), with no card and no metadata; or no error, with the card that
    was composited and metadata whose title, date and image URL are not
    empty. *)
Theorem page_over_handler (w : world) (handler : option body -> reply * list event)
    (s : Home.state) (h : str) :
  handler = POST w \/ handler = RouteHandler.POST w ->
  truthy (trim (Home.url s)) = true ->
  URL_hostname w (Home.url s) = Some h ->
  let s' := fst (Home.handleGenerate w (served handler) s) in
  Home.loading s' = false
  /\ Home.error s' <> lit "URL is required"
  /\ Home.error s' <> lit "Invalid URL format"
  /\ (Home.error s' <> []
      /\ (exists st, fst (handler (Some (Home.request_of s))) = Error st (Home.error s'))
      /\ Home.generatedImage s' = None /\ Home.metadata s' = None
      \/
      Home.error s' = []
      /\ exists c m,
           Home.generatedImage s' = Some c /\ Home.metadata s' = Some m
           /\ fst (handler (Some (Home.request_of s)))
              = Success c (Home.title m) (Home.author m) (Home.date m) (Home.source m)
                  (Home.imageUrl m)
           /\ composite w c = true
           /\ Home.title m <> [] /\ Home.date m <> [] /\ Home.imageUrl m <> []).
Proof.
  intros Hh Ht Hw. cbv zeta. unfold Home.handleGenerate. rewrite Ht, Hw. cbn [negb fst].
  unfold served.
  pose proof (@handler_reply w handler (Home.request_of s) (Home.url s) h Hh eq_refl
                (trim_truthy _ Ht) Hw) as R.
  destruct (fst (handler (Some (Home.request_of s)))) as [st m | c t a d so i].
  - destruct R as [Hok Hm]. cbn [Home.settle]. rewrite Hok. cbn [negb].
    assert (Hne : truthy m = true).
    { destruct m; [|reflexivity]. cbn in Hm. intuition discriminate. }
    unfold or_else. rewrite Hne. cbn.
    assert (D : forall x, ~ In (first_unit x) [70; 84; 78; 65]%N -> m <> x).
    { intros x Hx ->. exact (Hx Hm). }
    split; [reflexivity|].
    split; [apply D; cbn; intuition discriminate|].
    split; [apply D; cbn; intuition discriminate|].
    left. split; [intros ->; discriminate|]. split; [now exists st|]. now split.
  - destruct R as (Hc & Ht' & Hd & Hi). cbn.
    repeat split; try discriminate.
    right. split; [reflexivity|].
    exists c, (Home.mkArticle t a d so i). now repeat split.
Qed.

Lemma page_over_handler_witness :
  let s := page_with_card sample_url in
  let s' := fst (Home.handleGenerate world_image_fails (served (POST world_image_fails)) s) in
  Home.generatedImage s <> None
  /\ Home.error s' = lit "Failed to fetch article image"
  /\ Home.generatedImage s' = None.
Proof.
  cbv zeta.
  destruct (@page_over_handler world_image_fails (POST world_image_fails)
              (page_with_card sample_url) (lit "news.example.com")
              (or_introl eq_refl) eq_refl eq_refl)
    as (_ & _ & _ & [(_ & _ & Hi & _) | (He & _)]).
  - split; [vm_compute; discriminate|]. split; [vm_compute; reflexivity | exact Hi].
  - vm_compute in He. discriminate.
Defined.
